(** * Community service: controller and storage contract

    A shallow embedding of [community-service/controllers/communityController.js]
    (with the [Community] model of [models/Community.js]) and the properties of
    its handlers.

    The handlers are asynchronous JavaScript functions that talk to a SQL
    store through Sequelize.  They are embedded as programs of a small free
    monad [Prog]: a program either returns, throws, awaits one storage
    statement or writes one log line.  The store is a record of tables; every
    statement is one atomic transition of it.  A program is run to completion
    by [run] (one request on its own) or stepped inside a pool of running
    requests by [pool_step] (requests served concurrently). *)

From Stdlib Require Import ZArith String.
From stdpp Require Import list sorting strings relations.

Local Open Scope string_scope.
Local Open Scope Z_scope.
Local Open Scope list_scope.

(** ** JSON values and HTTP responses *)

#[local] Set Warnings "-register-all".

Inductive json : Type :=
| JNull
| JBool (b : bool)
| JNum (z : Z)
| JStr (s : string)
| JArr (items : list json)
| JObj (fields : list (string * json)).

(** [res.status(code).json(body)] *)
Record Response := mkResponse { status : Z; body : json }.

Definition res_status_json (code : Z) (b : json) : Response :=
  {| status := code; body := b |}.

(** A nullable column or an optional field, as JSON. *)
Definition json_opt_str (o : option string) : json :=
  match o with Some s => JStr s | None => JNull end.

(** ** Rows of the persisted schema *)

(** [communities(id, name, language, description)], see [models/Community.js]. *)
Record Community := mkCommunity {
  c_id : Z;
  c_name : string;
  c_language : option string;
  c_description : option string
}.

(** The columns of [users] that the controller reads. *)
Record User := mkUser {
  u_id : Z;
  u_name : string;
  u_email : string;
  u_profile_picture : option string
}.

(** [user_communities(id, user_id, community_id, joined_at)]. *)
Record Membership := mkMembership {
  m_id : Z;
  m_user_id : Z;
  m_community_id : Z;
  m_joined_at : Z
}.

(** A row of [SELECT u.id, u.name, u.email, u.profile_picture, uc.joined_at]. *)
Record MemberRow := mkMemberRow {
  r_id : Z;
  r_name : string;
  r_email : string;
  r_profile_picture : option string;
  r_joined_at : Z
}.

Definition community_json (c : Community) : json :=
  JObj [("id", JNum (c_id c)); ("name", JStr (c_name c));
        ("language", json_opt_str (c_language c));
        ("description", json_opt_str (c_description c))].

Definition member_json (r : MemberRow) : json :=
  JObj [("id", JNum (r_id r)); ("name", JStr (r_name r));
        ("email", JStr (r_email r));
        ("profile_picture", json_opt_str (r_profile_picture r));
        ("joined_at", JNum (r_joined_at r))].

(** ** The store *)

(** [user_communities] with the sequence behind its [SERIAL] key. *)
Record MembershipTable := mkTable {
  rows : list Membership;
  next_id : Z
}.

Record DB := mkDB {
  communities : list Community;
  communities_seq : Z;              (* autoIncrement of communities.id *)
  users : list User;
  user_communities : option MembershipTable;   (* None: table not created yet *)
  current_timestamp : Z             (* CURRENT_TIMESTAMP, advanced by the environment *)
}.

Inductive StorageError : Type :=
| ConnectionLost
| UndefinedTable
| UniqueViolation
| ForeignKeyViolation
| NumericValueOutOfRange
| InvalidTextRepresentation
| StringDataRightTruncation.

(** [req.params.id]: a segment of the path, a string.  The controller hands it
    to the store as it is, and the store reads an integer from it, of whatever
    size ([IdNumber]), or reads none, as from "user" ([IdWord]). *)
Inductive PathId : Type :=
| IdNumber (z : Z)
| IdWord (s : string).

(** The values of an [INTEGER] column. *)
Definition is_integer (z : Z) : Prop := -2147483648 <= z <= 2147483647.

#[global] Instance is_integer_dec z : Decision (is_integer z).
Proof. unfold is_integer. apply _. Defined.

(** A path segment compared with, or stored in, an [INTEGER] column. *)
Definition integer_param (id : PathId) : StorageError + Z :=
  match id with
  | IdNumber z => if decide (is_integer z) then inr z else inl NumericValueOutOfRange
  | IdWord _ => inl InvalidTextRepresentation
  end.

(** A path segment that is no [INTEGER] value: too large, too small, or no
    number at all. *)
Definition not_an_integer (id : PathId) : Prop :=
  match id with
  | IdNumber z => ~ is_integer z
  | IdWord _ => True
  end.

(** The values of a [DataTypes.STRING] column, [VARCHAR(255)]; a string is a
    sequence of characters. *)
Definition fits_varchar (s : string) : Prop := (String.length s <= 255)%nat.

#[global] Instance fits_varchar_dec s : Decision (fits_varchar s).
Proof. unfold fits_varchar. apply _. Defined.

(** The statements the controller sends, one constructor per statement. *)
Inductive Query : Type :=
| CreateUserCommunities
    (* CREATE TABLE IF NOT EXISTS user_communities (...) *)
| CommunityCreate (name : string) (language description : option string)
    (* Community.create({ name, language, description }) *)
| CommunityFindAll
    (* Community.findAll() *)
| CommunityFindByPk (id : PathId)
    (* Community.findByPk(id) *)
| InsertMembership (userId : Z) (communityId : PathId)
    (* INSERT INTO user_communities ... ON CONFLICT (user_id, community_id) DO NOTHING *)
| DeleteMembership (userId : Z) (communityId : PathId)
    (* DELETE FROM user_communities WHERE user_id = .. AND community_id = .. *)
| SelectMembers (communityId : PathId)
    (* SELECT ... FROM users u JOIN user_communities uc ... ORDER BY uc.joined_at ASC *)
| SelectUserCommunities (userId : Z).
    (* SELECT c.* FROM communities c JOIN user_communities uc ... WHERE uc.user_id = .. *)

Definition reply (q : Query) : Type :=
  match q with
  | CreateUserCommunities => unit
  | CommunityCreate _ _ _ => Community
  | CommunityFindAll => list Community
  | CommunityFindByPk _ => option Community
  | InsertMembership _ _ => unit
  | DeleteMembership _ _ => list json
  | SelectMembers _ => list MemberRow
  | SelectUserCommunities _ => list Community
  end.

Definition Outcome (q : Query) : Type := (StorageError + reply q)%type.

(** [WHERE id = :id] on [communities] and on [users]. *)
Definition has_id (id : Z) (c : Community) : Prop := c_id c = id.
Definition is_user (id : Z) (u : User) : Prop := u_id u = id.

(** [WHERE user_id = :userId AND community_id = :communityId] *)
Definition is_pair (userId communityId : Z) (m : Membership) : Prop :=
  m_user_id m = userId /\ m_community_id m = communityId.

(** [WHERE uc.community_id = :communityId] *)
Definition in_community (communityId : Z) (m : Membership) : Prop :=
  m_community_id m = communityId.

#[global] Instance has_id_dec id c : Decision (has_id id c).
Proof. unfold has_id. apply _. Defined.
#[global] Instance is_user_dec id u : Decision (is_user id u).
Proof. unfold is_user. apply _. Defined.
#[global] Instance is_pair_dec u c m : Decision (is_pair u c m).
Proof. unfold is_pair. apply _. Defined.
#[global] Instance in_community_dec c m : Decision (in_community c m).
Proof. unfold in_community. apply _. Defined.

(** The row with primary key [id], if any. *)
Definition find_by_pk (id : Z) (cs : list Community) : option Community :=
  snd <$> list_find (has_id id) cs.

Definition set_communities (d : DB) (cs : list Community) (seq : Z) : DB :=
  {| communities := cs; communities_seq := seq; users := users d;
     user_communities := user_communities d;
     current_timestamp := current_timestamp d |}.

Definition set_user_communities (d : DB) (t : MembershipTable) : DB :=
  {| communities := communities d; communities_seq := communities_seq d;
     users := users d; user_communities := Some t;
     current_timestamp := current_timestamp d |}.

(** What [sequelize.query] resolves to for a statement sent with
    [type: QueryTypes.DELETE]: the rows the statement returns, not a pair of
    rows and metadata.  The DELETE of the controller has no RETURNING clause,
    so the reply is the empty array whether rows were deleted or not; the
    number of rows [affected] is not part of it. *)
Definition delete_reply (affected : nat) : list json := [].

(** [ORDER BY uc.joined_at ASC] *)
Definition joined_le (a b : MemberRow) : Prop := r_joined_at a <= r_joined_at b.

#[global] Instance joined_le_dec a b : Decision (joined_le a b).
Proof. unfold joined_le. apply _. Defined.

Definition member_row (u : User) (m : Membership) : MemberRow :=
  {| r_id := u_id u; r_name := u_name u; r_email := u_email u;
     r_profile_picture := u_profile_picture u; r_joined_at := m_joined_at m |}.

(** [FROM users u JOIN user_communities uc ON u.id = uc.user_id
     WHERE uc.community_id = :communityId], before ordering. *)
Definition members_join (us : list User) (ms : list Membership) (communityId : Z)
  : list MemberRow :=
  u ← us; m ← ms;
  if decide (u_id u = m_user_id m /\ in_community communityId m)
  then [member_row u m] else [].

Definition select_members (us : list User) (ms : list Membership) (communityId : Z)
  : list MemberRow :=
  merge_sort joined_le (members_join us ms communityId).

(** [FROM communities c JOIN user_communities uc ON c.id = uc.community_id
     WHERE uc.user_id = :userId] *)
Definition select_user_communities (cs : list Community) (ms : list Membership)
    (userId : Z) : list Community :=
  c ← cs; m ← ms;
  if decide (c_id c = m_community_id m /\ m_user_id m = userId)
  then [c] else [].

(** [INSERT INTO user_communities (user_id, community_id) VALUES (..)
     ON CONFLICT (user_id, community_id) DO NOTHING], its values read. *)
Definition insert_membership (userId communityId : Z) (d : DB)
  : (StorageError + unit) * DB :=
  match user_communities d with
  | None => (inl UndefinedTable, d)
  | Some t =>
      let id := next_id t in
      let skipped := set_user_communities d {| rows := rows t; next_id := id + 1 |} in
      if decide (Exists (is_pair userId communityId) (rows t))
      then (inr tt, skipped)                                  (* DO NOTHING *)
      else if decide (Exists (fun m => m_id m = id) (rows t))
      then (inl UniqueViolation, skipped)
      else if decide (Exists (is_user userId) (users d)
                      /\ Exists (has_id communityId) (communities d))
      then
        let m := {| m_id := id; m_user_id := userId;
                    m_community_id := communityId;
                    m_joined_at := current_timestamp d |} in
        (inr tt, set_user_communities d {| rows := rows t ++ [m]; next_id := id + 1 |})
      else (inl ForeignKeyViolation, skipped)
  end.

(** [DELETE FROM user_communities WHERE user_id = .. AND community_id = ..],
    its values read. *)
Definition delete_membership (userId communityId : Z) (d : DB)
  : (StorageError + list json) * DB :=
  match user_communities d with
  | None => (inl UndefinedTable, d)
  | Some t =>
      let gone := filter (is_pair userId communityId) (rows t) in
      let kept := filter (fun m => ~ is_pair userId communityId m) (rows t) in
      (inr (delete_reply (length gone)),
       set_user_communities d {| rows := kept; next_id := next_id t |})
  end.

(** Name and language as their columns take them; a language left out is
    stored as NULL. *)
Definition fits_columns (name : string) (language : option string) : Prop :=
  fits_varchar name /\
  match language with Some l => fits_varchar l | None => True end.

#[global] Instance fits_columns_dec name language :
  Decision (fits_columns name language).
Proof. unfold fits_columns. destruct language; apply _. Defined.

(** [Community.create]: the id comes from the sequence of the [INTEGER] key,
    which fails once it has run out of values; name and language must fit
    their [VARCHAR(255)] columns. *)
Definition community_create (name : string) (language description : option string)
    (d : DB) : (StorageError + Community) * DB :=
  let id := communities_seq d in
  let c := {| c_id := id; c_name := name; c_language := language;
              c_description := description |} in
  if decide (fits_columns name language)
  then
    if decide (is_integer id)
    then
      if decide (Exists (has_id id) (communities d))
      then (inl UniqueViolation, set_communities d (communities d) (id + 1))
      else (inr c, set_communities d (communities d ++ [c]) (id + 1))
    else (inl NumericValueOutOfRange, d)
  else (inl StringDataRightTruncation, d).

(** One statement against the store.  Constraints of the schema are enforced
    here: the types of the columns, primary keys,
    [UNIQUE(user_id, community_id)] and both foreign keys.  A community id
    taken from the path is read as an [INTEGER] first, and the statement fails
    when it is none. *)
Definition db_exec (q : Query) (d : DB) : Outcome q * DB :=
  match q return Outcome q * DB with
  | CreateUserCommunities =>
      match user_communities d with
      | Some _ => (inr tt, d)
      | None => (inr tt, set_user_communities d {| rows := []; next_id := 1 |})
      end
  | CommunityCreate name language description =>
      community_create name language description d
  | CommunityFindAll => (inr (communities d), d)
  | CommunityFindByPk id =>
      match integer_param id with
      | inl e => (inl e, d)
      | inr c => (inr (find_by_pk c (communities d)), d)
      end
  | InsertMembership userId communityId =>
      match integer_param communityId with
      | inl e => (inl e, d)
      | inr c => insert_membership userId c d
      end
  | DeleteMembership userId communityId =>
      match integer_param communityId with
      | inl e => (inl e, d)
      | inr c => delete_membership userId c d
      end
  | SelectMembers communityId =>
      match integer_param communityId with
      | inl e => (inl e, d)
      | inr c =>
          match user_communities d with
          | None => (inl UndefinedTable, d)
          | Some t => (inr (select_members (users d) (rows t) c), d)
          end
      end
  | SelectUserCommunities userId =>
      match user_communities d with
      | None => (inl UndefinedTable, d)
      | Some t => (inr (select_user_communities (communities d) (rows t) userId), d)
      end
  end.

(** ** The world a request runs in *)

Inductive Level := Debug | Info | Warn | Error.

(** The arguments of a logger call, unrendered. *)
Inductive LogPart : Type :=
| LText (s : string)
| LNum (z : Z)
| LErr (e : StorageError)
| LJson (j : json).

Record LogEntry := mkLog { level : Level; parts : list LogPart }.

(** A path segment in a log line. *)
Definition log_id (id : PathId) : LogPart :=
  match id with
  | IdNumber z => LNum z
  | IdWord s => LText s
  end.

(** What the storage layer was asked and whether it failed. *)
Definition Event : Type := (Query * option StorageError)%type.

Record World := mkWorld {
  w_db : DB;
  w_faults : list bool;       (* outages to come: [true] fails the next statement *)
  w_trace : list Event;       (* statements issued so far, oldest first *)
  w_log : list LogEntry       (* log lines written so far, oldest first *)
}.

Definition failure {q : Query} (o : Outcome q) : option StorageError :=
  match o with inl e => Some e | inr _ => None end.

(** [await] of one statement: an outage fails it before it reaches the store. *)
Definition exec (q : Query) (w : World) : Outcome q * World :=
  match w_faults w with
  | true :: fs =>
      (inl ConnectionLost,
       {| w_db := w_db w; w_faults := fs;
          w_trace := w_trace w ++ [(q, Some ConnectionLost)]; w_log := w_log w |})
  | _ =>
      let '(o, d) := db_exec q (w_db w) in
      (o, {| w_db := d; w_faults := tail (w_faults w);
             w_trace := w_trace w ++ [(q, failure o)]; w_log := w_log w |})
  end.

Definition write_log (entry : LogEntry) (w : World) : World :=
  {| w_db := w_db w; w_faults := w_faults w; w_trace := w_trace w;
     w_log := w_log w ++ [entry] |}.

(** ** Programs *)

Inductive Prog (A : Type) : Type :=
| Ret (a : A)
| Throw (e : StorageError)
| Call (q : Query) (k : Outcome q -> Prog A)
| Log (entry : LogEntry) (k : Prog A).

Arguments Ret {A} a.
Arguments Throw {A} e.
Arguments Call {A} q k.
Arguments Log {A} entry k.

Fixpoint bind {A B : Type} (p : Prog A) (f : A -> Prog B) : Prog B :=
  match p with
  | Ret a => f a
  | Throw e => Throw e
  | Call q k => Call q (fun o => bind (k o) f)
  | Log entry k => Log entry (bind k f)
  end.

#[global] Instance prog_ret : MRet Prog := fun A a => Ret a.
#[global] Instance prog_bind : MBind Prog := fun A B f p => bind p f.

(** [try { p } catch (error) { h error }] *)
Fixpoint try_catch {A : Type} (p : Prog A) (h : StorageError -> Prog A) : Prog A :=
  match p with
  | Ret a => Ret a
  | Throw e => h e
  | Call q k => Call q (fun o => try_catch (k o) h)
  | Log entry k => Log entry (try_catch k h)
  end.

(** [await sequelize.query(...)], [await Community.findByPk(...)]: a failed
    statement rejects the promise and the rejection is thrown. *)
Definition await (q : Query) : Prog (reply q) :=
  Call q (fun o => match o with inl e => Throw e | inr r => Ret r end).

Definition logger (l : Level) (ps : list LogPart) : Prog unit :=
  Log {| level := l; parts := ps |} (Ret tt).

(** Running one request to completion. *)
Fixpoint run {A : Type} (p : Prog A) (w : World) : (StorageError + A) * World :=
  match p with
  | Ret a => (inr a, w)
  | Throw e => (inl e, w)
  | Call q k => let '(o, w') := exec q w in run (k o) w'
  | Log entry k => run k (write_log entry w)
  end.

(** ** Requests *)

(** [req.user], set by the authentication middleware. *)
Record ReqUser := mkReqUser { user_id : Z; user_role : string }.

(** [req.body] of [POST /]: [{ name, language?, description? }]; a field that
    is absent is [None]. *)
Record ReqBody := mkReqBody {
  body_name : option string;
  body_language : option string;
  body_description : option string
}.

Record Request := mkRequest {
  req_user : ReqUser;
  req_params_id : PathId;     (* req.params.id *)
  req_body : ReqBody
}.

(** JavaScript truthiness of a string-or-undefined field: [!name] holds for
    [undefined] and for the empty string. *)
Definition truthy (o : option string) : bool :=
  match o with
  | None => false
  | Some s => negb (String.eqb s "")
  end.

Definition error_body (msg : string) : json := JObj [("error", JStr msg)].
Definition message_body (msg : string) : json := JObj [("message", JStr msg)].

(** ** The controller *)

Definition createUserCommunityModel : Prog unit :=
  try_catch
    (await CreateUserCommunities ;;
     logger Info [LText "UserCommunity table checked/created"])
    (fun error =>
       logger Error [LText "Error creating UserCommunity table:"; LErr error] ;;
       Throw error).

Definition createCommunity (req : Request) : Prog Response :=
  try_catch
    (if negb (String.eqb (user_role (req_user req)) "admin")
     then Ret (res_status_json 403 (error_body "Only admins can create communities"))
     else
       let name := body_name (req_body req) in
       let language := body_language (req_body req) in
       let description := body_description (req_body req) in
       if negb (truthy name)
       then Ret (res_status_json 400 (error_body "Community name is required"))
       else
         community ← await (CommunityCreate (default "" name) language description);
         logger Info [LText "Admin "; LNum (user_id (req_user req));
                      LText " created community: "; LText (default "" name)] ;;
         Ret (res_status_json 201 (community_json community)))
    (fun error =>
       logger Error [LText "Error creating community:"; LErr error] ;;
       Ret (res_status_json 500 (error_body "Internal server error"))).

Definition getAllCommunities (req : Request) : Prog Response :=
  try_catch
    (communities ← await CommunityFindAll;
     Ret (res_status_json 200 (JArr (map community_json communities))))
    (fun error =>
       logger Error [LText "Error fetching communities:"; LErr error] ;;
       Ret (res_status_json 500 (error_body "Internal server error"))).

Definition getCommunityById (req : Request) : Prog Response :=
  try_catch
    (let communityId := req_params_id req in
     community ← await (CommunityFindByPk communityId);
     match community with
     | None => Ret (res_status_json 404 (error_body "Community not found"))
     | Some c => Ret (res_status_json 200 (community_json c))
     end)
    (fun error =>
       logger Error [LText "Error fetching community:"; LErr error] ;;
       Ret (res_status_json 500 (error_body "Internal server error"))).

Definition joinCommunity (req : Request) : Prog Response :=
  try_catch
    (let userId := user_id (req_user req) in
     let communityId := req_params_id req in
     logger Debug [LText "User ID: "; LNum userId;
                   LText ", Community ID: "; log_id communityId] ;;
     community ← await (CommunityFindByPk communityId);
     match community with
     | None => Ret (res_status_json 404 (error_body "Community not found"))
     | Some _ =>
         createUserCommunityModel ;;
         await (InsertMembership userId communityId) ;;
         logger Info [LText "User "; LNum userId;
                      LText " joined community "; log_id communityId] ;;
         Ret (res_status_json 200 (message_body "Successfully joined community"))
     end)
    (fun error =>
       logger Error [LText "Error joining community:"; LErr error] ;;
       Ret (res_status_json 500 (error_body "Internal server error"))).

(** [result[1] === 0] *)
Definition no_rows_affected (result : list json) : bool :=
  match nth_error result 1 with
  | Some (JNum 0) => true
  | _ => false
  end.

Definition leaveCommunity (req : Request) : Prog Response :=
  try_catch
    (let userId := user_id (req_user req) in
     let communityId := req_params_id req in
     logger Debug [LText "User ID: "; LNum userId;
                   LText ", Community ID: "; log_id communityId] ;;
     createUserCommunityModel ;;
     result ← await (DeleteMembership userId communityId);
     if no_rows_affected result
     then Ret (res_status_json 404 (error_body "Membership not found"))
     else
       logger Info [LText "User "; LNum userId;
                    LText " left community "; log_id communityId] ;;
       Ret (res_status_json 200 (message_body "Successfully left community")))
    (fun error =>
       logger Error [LText "Error leaving community:"; LErr error] ;;
       Ret (res_status_json 500 (error_body "Internal server error"))).

Definition getCommunityMembers (req : Request) : Prog Response :=
  try_catch
    (let communityId := req_params_id req in
     logger Debug [LText "Extracted Community ID: "; log_id communityId] ;;
     community ← await (CommunityFindByPk communityId);
     match community with
     | None =>
         logger Warn [LText "Community with ID "; log_id communityId;
                      LText " not found"] ;;
         Ret (res_status_json 404 (error_body "Community not found"))
     | Some _ =>
         createUserCommunityModel ;;
         members ← await (SelectMembers communityId);
         logger Debug [LText "Fetched Members: ";
                       LJson (JArr (map member_json members))] ;;
         Ret (res_status_json 200 (JArr (map member_json members)))
     end)
    (fun error =>
       logger Error [LText "Error fetching community members:"; LErr error] ;;
       Ret (res_status_json 500 (error_body "Internal server error"))).

Definition getUserCommunities (req : Request) : Prog Response :=
  try_catch
    (let userId := user_id (req_user req) in
     logger Debug [LText "Extracted User ID: "; LNum userId] ;;
     createUserCommunityModel ;;
     communities ← await (SelectUserCommunities userId);
     logger Debug [LText "Fetched Communities: ";
                   LJson (JArr (map community_json communities))] ;;
     Ret (res_status_json 200 (JArr (map community_json communities))))
    (fun error =>
       logger Error [LText "Error fetching user communities:"; LErr error] ;;
       Ret (res_status_json 500 (error_body "Internal server error"))).

(** [module.exports]: the seven operations of the controller. *)
Inductive Operation :=
| OpCreateCommunity | OpGetAllCommunities | OpGetCommunityById
| OpJoinCommunity | OpLeaveCommunity | OpGetCommunityMembers
| OpGetUserCommunities.

Definition handler (op : Operation) : Request -> Prog Response :=
  match op with
  | OpCreateCommunity => createCommunity
  | OpGetAllCommunities => getAllCommunities
  | OpGetCommunityById => getCommunityById
  | OpJoinCommunity => joinCommunity
  | OpLeaveCommunity => leaveCommunity
  | OpGetCommunityMembers => getCommunityMembers
  | OpGetUserCommunities => getUserCommunities
  end.

(** ** Outages and integrity constraints *)

(** No outage is pending: every statement reaches the store. *)
Definition healthy (w : World) : Prop := Forall (fun b => b = false) (w_faults w).

#[global] Instance healthy_dec w : Decision (healthy w).
Proof. unfold healthy. apply _. Defined.

Definition pair_of (m : Membership) : Z * Z := (m_user_id m, m_community_id m).

(** The constraints declared by [CREATE TABLE user_communities]: the serial
    primary key, [UNIQUE(user_id, community_id)] and the two foreign keys. *)
Definition table_ok (d : DB) (t : MembershipTable) : Prop :=
  NoDup (pair_of <$> rows t) /\
  NoDup (m_id <$> rows t) /\
  Forall (fun m => m_id m < next_id t) (rows t) /\
  Forall (fun m => Exists (is_user (m_user_id m)) (users d)) (rows t) /\
  Forall (fun m => Exists (has_id (m_community_id m)) (communities d)) (rows t).

(** The constraints of the whole schema, the [INTEGER] type of
    [communities.id] included. *)
Definition db_ok (d : DB) : Prop :=
  NoDup (c_id <$> communities d) /\
  Forall (fun c => is_integer (c_id c) /\ c_id c < communities_seq d) (communities d) /\
  NoDup (u_id <$> users d) /\
  match user_communities d with
  | None => True
  | Some t => table_ok d t
  end.

#[global] Instance table_ok_dec d t : Decision (table_ok d t).
Proof. unfold table_ok. apply _. Defined.

#[global] Instance db_ok_dec d : Decision (db_ok d).
Proof. unfold db_ok. destruct (user_communities d); apply _. Defined.

(** The membership rows of a store; none while the table does not exist. *)
Definition memberships (d : DB) : list Membership :=
  match user_communities d with
  | None => []
  | Some t => rows t
  end.

(** ** Derived views of a program *)

(** The run of a program when no outage occurs, as a function of the store
    alone; [run_healthy] relates it to [run]. *)
Fixpoint run_db {A : Type} (p : Prog A) (d : DB) : (StorageError + A) * DB :=
  match p with
  | Ret a => (inr a, d)
  | Throw e => (inl e, d)
  | Call q k => let '(o, d') := db_exec q d in run_db (k o) d'
  | Log _ k => run_db k d
  end.

(** Every statement a program can issue, whatever the replies, is [allowed]. *)
Fixpoint only {A : Type} (allowed : Query -> Prop) (p : Prog A) : Prop :=
  match p with
  | Ret _ | Throw _ => True
  | Call q k => allowed q /\ forall o, only allowed (k o)
  | Log _ k => only allowed k
  end.

(** The events a run appended to the trace. *)
Definition events_of {A : Type} (p : Prog A) (w : World) : list Event :=
  drop (length (w_trace w)) (w_trace (run p w).2).

Definition failed (ev : Event) : Prop := is_Some ev.2.

#[global] Instance failed_dec ev : Decision (failed ev).
Proof. unfold failed. apply _. Defined.

(** The next statement is lost to an outage. *)
Definition next_fails (w : World) : Prop := head (w_faults w) = Some true.

#[global] Instance next_fails_dec w : Decision (next_fails w).
Proof. unfold next_fails. apply _. Defined.

(** Everything except the membership rows of the pair [(userId, communityId)]
    is the same in [d] and [d']: the communities and their sequence, the
    users, and every membership row of another pair, in the same order. *)
Definition untouched_outside (userId communityId : Z) (d d' : DB) : Prop :=
  communities d' = communities d /\
  communities_seq d' = communities_seq d /\
  users d' = users d /\
  filter (fun m => ~ is_pair userId communityId m) (memberships d') =
  filter (fun m => ~ is_pair userId communityId m) (memberships d).

(** The statements [joinCommunity] and [leaveCommunity] may issue for a pair. *)
Definition membership_statement (userId : Z) (communityId : PathId) (q : Query) : Prop :=
  q = CommunityFindByPk communityId \/ q = CreateUserCommunities \/
  q = InsertMembership userId communityId \/ q = DeleteMembership userId communityId.

(** The answer to a storage failure. *)
Definition internal_error : Response :=
  res_status_json 500 (error_body "Internal server error").

(** An answer that is not the internal error: one of the other statuses of the
    interface, with an [{ error: msg }] body whenever the status is an error. *)
Definition settled (resp : Response) : Prop :=
  status resp ∈ [200; 201; 400; 403; 404] /\
  (400 <= status resp -> exists msg, body resp = JObj [("error", JStr msg)]).

(** The shape of a handler: whatever the store replies, it returns (never
    throws); once a statement has failed ([after_failure]) it returns the
    internal error, and otherwise a [settled] answer. *)
Fixpoint behaves (after_failure : bool) (p : Prog Response) : Prop :=
  match p with
  | Ret resp => if after_failure then resp = internal_error else settled resp
  | Throw _ => False
  | Call q k =>
      (forall r, behaves after_failure (k (inr r))) /\
      (forall e, behaves true (k (inl e)))
  | Log _ k => behaves after_failure k
  end.

(** The row [SelectMembers] shows for a membership: the columns of the user
    it references, with the membership's [joined_at]. *)
Definition member_of (us : list User) (m : Membership) : option MemberRow :=
  (fun u => member_row u m) <$> (snd <$> list_find (is_user (m_user_id m)) us).

(** The same row, as the user and the membership it is made of. *)
Definition member_pair (us : list User) (m : Membership) : option (User * Membership) :=
  (fun u => (u, m)) <$> (snd <$> list_find (is_user (m_user_id m)) us).

(** ** Requests served concurrently *)

(** One step of a program that has not finished: its next statement, as one
    atomic transition of the store, or its next log line. *)
Definition advance {A : Type} (p : Prog A) (w : World) : option (Prog A * World) :=
  match p with
  | Ret _ | Throw _ => None
  | Call q k => let '(o, w') := exec q w in Some (k o, w')
  | Log entry k => Some (k, write_log entry w)
  end.

(** Requests in flight over one world. *)
Definition Pool : Type := (list (Prog Response) * World)%type.


(** The interleaving that steps the requests in the order of [schedule]; an
    index that names no running request is skipped. *)
Fixpoint run_schedule (schedule : list nat) (s : Pool) : Pool :=
  match schedule with
  | [] => s
  | i :: rest =>
      match s.1 !! i with
      | Some p =>
          match advance p s.2 with
          | Some (p', w') => run_schedule rest (<[i := p']> s.1, w')
          | None => run_schedule rest s
          end
      | None => run_schedule rest s
      end
  end.


Definition joined_response : Response :=
  res_status_json 200 (message_body "Successfully joined community").




(** ** Further views of the controller *)

(** The store once [CREATE TABLE IF NOT EXISTS user_communities] has run. *)
Definition ensure_table (d : DB) : DB := (db_exec CreateUserCommunities d).2.

(** The community a membership references, if it is stored. *)
Definition community_of (cs : list Community) (m : Membership) : option Community :=
  find_by_pk (m_community_id m) cs.

(** [WHERE uc.user_id = :userId] *)
Definition of_user (userId : Z) (m : Membership) : Prop := m_user_id m = userId.

#[global] Instance of_user_dec u m : Decision (of_user u m).
Proof. unfold of_user. apply _. Defined.

(** A program issues at most [n] statements, whatever the replies. *)
Fixpoint calls_at_most {A : Type} (n : nat) (p : Prog A) : Prop :=
  match p with
  | Ret _ | Throw _ => True
  | Log _ k => calls_at_most n k
  | Call q k =>
      match n with
      | O => False
      | S m => forall o, calls_at_most m (k o)
      end
  end.

(** A program issues no statement after one has failed. *)
Fixpoint fail_fast {A : Type} (p : Prog A) : Prop :=
  match p with
  | Ret _ | Throw _ => True
  | Log _ k => fail_fast k
  | Call q k =>
      (forall e, only (fun _ => False) (k (inl e))) /\
      (forall r, fail_fast (k (inr r)))
  end.

#[global] Instance StorageError_eq_dec : EqDecision StorageError.
Proof. solve_decision. Defined.

(** [logger.error('...:', error)]: an error-level line made of a text and the
    error [e]. *)
Definition is_report (e : StorageError) (entry : LogEntry) : bool :=
  match level entry, parts entry with
  | Error, [LText _; LErr e'] => bool_decide (e' = e)
  | _, _ => false
  end.

(** A handler that reports failures: it issues no statement after a failure,
    and when it returns after the failure [e] the last line it logged is the
    report of [e].  [failure] is the failure so far and [reported] tells
    whether the last line logged is its report. *)
Fixpoint reports (failure : option StorageError) (reported : bool)
    (p : Prog Response) : Prop :=
  match p with
  | Ret _ => match failure with Some _ => reported = true | None => True end
  | Throw _ => True
  | Log entry k =>
      reports failure
        (match failure with Some e => is_report e entry | None => false end) k
  | Call q k =>
      failure = None /\
      (forall r, reports None false (k (inr r))) /\
      (forall e, reports (Some e) false (k (inl e)))
  end.

(** The tables hold the same rows in [d] and [d']; only the existence of the
    (possibly empty) membership table may differ. *)
Definition same_tables (d d' : DB) : Prop :=
  communities d' = communities d /\
  communities_seq d' = communities_seq d /\
  users d' = users d /\
  memberships d' = memberships d.

(** The statements that write no row. *)
Definition read_statement (q : Query) : Prop :=
  match q with
  | CommunityCreate _ _ _ | InsertMembership _ _ | DeleteMembership _ _ => False
  | _ => True
  end.

#[global] Instance Operation_eq_dec : EqDecision Operation.
Proof. solve_decision. Defined.

(** The operations that write membership rows. *)
Definition writes_memberships (op : Operation) : Prop :=
  op = OpJoinCommunity \/ op = OpLeaveCommunity.

#[global] Instance writes_memberships_dec op : Decision (writes_memberships op).
Proof. unfold writes_memberships. apply _. Defined.

(** ** The router *)

Inductive Method := GET | POST | PUT | PATCH | DELETE.

#[global] Instance Method_eq_dec : EqDecision Method.
Proof. solve_decision. Defined.

(** A segment of a route path: a literal, or a named parameter such as [:id]. *)
Inductive Segment := Lit (s : string) | Param (name : string).

(** The guards imported from [middleware/auth]. *)
Inductive Middleware := authMiddleware | adminMiddleware.

#[global] Instance Middleware_eq_dec : EqDecision Middleware.
Proof. solve_decision. Defined.

(** [router.METHOD(path, ...guards, handler)] *)
Record Route := mkRoute {
  route_method : Method;
  route_path : list Segment;
  route_guards : list Middleware;
  route_handler : Operation
}.

(** The routes, in the order they are registered. *)
Definition router : list Route :=
  [ mkRoute GET [] [] OpGetAllCommunities;
    mkRoute GET [Param "id"] [] OpGetCommunityById;
    mkRoute POST [Param "id"; Lit "join"] [authMiddleware] OpJoinCommunity;
    mkRoute DELETE [Param "id"; Lit "leave"] [authMiddleware] OpLeaveCommunity;
    mkRoute GET [Lit "user"; Lit "communities"] [authMiddleware] OpGetUserCommunities;
    mkRoute GET [Param "id"; Lit "members"] [authMiddleware] OpGetCommunityMembers;
    mkRoute POST [] [authMiddleware; adminMiddleware] OpCreateCommunity ].

(** One segment of a request path against one segment of a route.  How a
    literal is compared ([same_segment]; Express folds case unless told
    otherwise) is left open; a parameter takes any non-empty segment. *)
Definition segment_matches (same_segment : string -> string -> bool)
    (pat : Segment) (s : string) : bool :=
  match pat with
  | Lit l => same_segment l s
  | Param _ => negb (String.eqb s "")
  end.

(** A route path matches a request path segment by segment, to the end. *)
Fixpoint path_matches (same_segment : string -> string -> bool)
    (pat : list Segment) (path : list string) : bool :=
  match pat, path with
  | [], [] => true
  | p :: pat', s :: path' =>
      segment_matches same_segment p s && path_matches same_segment pat' path'
  | _, _ => false
  end.

Definition route_matches (same_segment : string -> string -> bool)
    (m : Method) (path : list string) (r : Route) : bool :=
  bool_decide (route_method r = m) && path_matches same_segment (route_path r) path.

(** The first registered route that matches serves the request. *)
Definition dispatch (same_segment : string -> string -> bool) (table : list Route)
    (m : Method) (path : list string) : option Route :=
  List.find (route_matches same_segment m path) table.

(** ** Sample data *)

Module Sample.

Definition rustaceans : Community :=
  {| c_id := 1; c_name := "Rustaceans"; c_language := Some "rust";
     c_description := None |}.

Definition ann : User := mkUser 7 "Ann" "ann@example.org" None.
Definition bob : User := mkUser 8 "Bob" "bob@example.org" (Some "bob.png").
Definition cyd : User := mkUser 9 "Cyd" "cyd@example.org" None.

(** One community, three users, no membership table yet. *)
Definition db : DB :=
  {| communities := [rustaceans]; communities_seq := 2;
     users := [ann; bob; cyd]; user_communities := None;
     current_timestamp := 100 |}.

(** Bob joined at 20, Cyd at 30 and Ann at 10; the rows are stored in an
    order that is not the order of the join times. *)
Definition at10 : Membership := mkMembership 3 7 1 10.
Definition at20 : Membership := mkMembership 1 8 1 20.
Definition at30 : Membership := mkMembership 2 9 1 30.

Definition db_joined : DB :=
  {| communities := [rustaceans]; communities_seq := 2;
     users := [ann; bob; cyd];
     user_communities := Some {| rows := [at20; at30; at10]; next_id := 4 |};
     current_timestamp := 100 |}.

Definition world (d : DB) : World :=
  {| w_db := d; w_faults := []; w_trace := []; w_log := [] |}.

(** The storage layer is down for the next statement. *)
Definition world_down (d : DB) : World :=
  {| w_db := d; w_faults := [true]; w_trace := []; w_log := [] |}.

Definition no_body : ReqBody := mkReqBody None None None.

(** Ann, an ordinary user, addressing community [id]. *)
Definition ann_req (id : Z) : Request :=
  mkRequest (mkReqUser 7 "user") (IdNumber id) no_body.
Definition bob_req (id : Z) : Request :=
  mkRequest (mkReqUser 8 "user") (IdNumber id) no_body.

(** An admin posting a body. *)
Definition admin_req (b : ReqBody) : Request :=
  mkRequest (mkReqUser 1 "admin") (IdNumber 0) b.


(** Ann addressing a path segment that is no number, as in [GET /user]. *)
Definition word_req (s : string) : Request :=
  mkRequest (mkReqUser 7 "user") (IdWord s) no_body.


(** A caller whose id is in no row of [users]. *)
Definition stranger_req (id : Z) : Request :=
  mkRequest (mkReqUser 42 "user") (IdNumber id) no_body.

(** The first statement succeeds, the second is lost. *)
Definition world_flaky (d : DB) : World :=
  {| w_db := d; w_faults := [false; true]; w_trace := []; w_log := [] |}.

(** Exact comparison of literal segments. *)
Definition exact_segment : string -> string -> bool := String.eqb.

End Sample.

(** Walks through a program, whatever the replies, to check its statements. *)
Ltac walk_program :=
  repeat match goal with
  | |- _ /\ _ => split
  | |- forall _ : Outcome _, _ => intros [?|?]
  | |- forall _, _ => intro
  | |- context [if ?x then _ else _] => destruct x
  | |- context [match ?x with Some _ => _ | None => _ end] => destruct x
  | |- True => exact I
  | _ => progress cbn
  end.

(** Takes one statement of a run, with the lemma [cases] telling what it
    answered and what became of the store. *)
Ltac exec_step cases q w o w' H :=
  pose proof (cases q w) as H;
  destruct (exec q w) as [o w']; cbn [fst snd] in H.

(** * Properties *)

(** ** Generic facts about [exec] and [run] *)

Lemma healthy_tail w q : healthy w -> healthy (exec q w).2.
Proof.
  unfold healthy, exec. intros H.
  destruct (w_faults w) as [|[] fs] eqn:E; cbn.
  - destruct (db_exec q (w_db w)); cbn. constructor.
  - by inversion H.
  - destruct (db_exec q (w_db w)); cbn. by inversion H.
Qed.

Lemma exec_healthy q w :
  healthy w ->
  (exec q w).1 = (db_exec q (w_db w)).1 /\
  w_db (exec q w).2 = (db_exec q (w_db w)).2.
Proof.
  unfold healthy, exec. intros H.
  destruct (w_faults w) as [|[] fs] eqn:E; cbn.
  - by destruct (db_exec q (w_db w)).
  - inversion H; discriminate.
  - by destruct (db_exec q (w_db w)).
Qed.

(** A statement either reaches the store or is lost to an outage, in which
    case the store is untouched. *)
Lemma exec_cases q w :
  ((exec q w).1 = (db_exec q (w_db w)).1 /\ w_db (exec q w).2 = (db_exec q (w_db w)).2) \/
  ((exec q w).1 = inl ConnectionLost /\ w_db (exec q w).2 = w_db w).
Proof.
  unfold exec. destruct (w_faults w) as [|[] fs]; cbn; auto;
    destruct (db_exec q (w_db w)); auto.
Qed.

Lemma exec_trace q w :
  w_trace (exec q w).2 = w_trace w ++ [(q, failure (exec q w).1)].
Proof.
  unfold exec. destruct (w_faults w) as [|[] fs]; cbn; auto;
    destruct (db_exec q (w_db w)); auto.
Qed.

Lemma run_healthy {A} (p : Prog A) w :
  healthy w ->
  (run p w).1 = (run_db p (w_db w)).1 /\
  w_db (run p w).2 = (run_db p (w_db w)).2 /\
  healthy (run p w).2.
Proof.
  revert w. induction p as [a|e|q k IH|entry k IH]; intros w Hw; cbn.
  - done.
  - done.
  - destruct (exec_healthy q w Hw) as [E1 E2].
    pose proof (healthy_tail w q Hw) as Hw'.
    destruct (exec q w) as [o w']; cbn in *.
    destruct (db_exec q (w_db w)) as [o' d']; cbn in *. subst o' d'.
    by apply IH.
  - by apply (IH (write_log entry w)).
Qed.

(** A relation on stores that every allowed statement respects is respected
    by the whole run, outages included. *)
Lemma run_only {A} (R : relation DB) `{!PreOrder R} (allowed : Query -> Prop)
    (p : Prog A) w :
  (forall q d, allowed q -> R d (db_exec q d).2) ->
  only allowed p ->
  R (w_db w) (w_db (run p w).2).
Proof.
  intros HR. revert w.
  induction p as [a|e|q k IH|entry k IH]; intros w Hp; cbn in *.
  - done.
  - done.
  - destruct Hp as [Hq Hk].
    pose proof (exec_cases q w) as Hc. pose proof (HR q (w_db w) Hq) as Hstep.
    destruct (exec q w) as [o w']; cbn in *.
    transitivity (w_db w'); [|by apply IH].
    destruct Hc as [[_ ->]|[_ ->]]; done.
  - by apply (IH (write_log entry w)).
Qed.

(** ** The store keeps its constraints *)

Lemma is_pair_pair_of u c m : is_pair u c m <-> pair_of m = (u, c).
Proof. unfold is_pair, pair_of. split; [intros [-> ->]|intros [= -> ->]]; done. Qed.

Lemma no_pair_not_elem u c (ms : list Membership) :
  ~ Exists (is_pair u c) ms -> (u, c) ∉ pair_of <$> ms.
Proof.
  intros Hno [m [Hm Hin]]%list_elem_of_fmap. apply Hno, Exists_exists.
  exists m. split; [done|]. by apply is_pair_pair_of.
Qed.




Lemma NoDup_snoc {A} (l : list A) x : NoDup l -> x ∉ l -> NoDup (l ++ [x]).
Proof.
  intros Hl Hx. apply NoDup_app. split_and!; [done| |apply NoDup_singleton].
  intros y Hy ->%list_elem_of_singleton. done.
Qed.

Lemma NoDup_fmap_filter {A B} (f : A -> B) (P : A -> Prop)
    `{!forall x, Decision (P x)} (l : list A) :
  NoDup (f <$> l) -> NoDup (f <$> filter P l).
Proof.
  induction l as [|x l IH]; [done|].
  rewrite fmap_cons, NoDup_cons. intros [Hx Hl].
  rewrite filter_cons. destruct (decide (P x)); [|by apply IH].
  rewrite fmap_cons. apply NoDup_cons. split; [|by apply IH].
  intros (y & Hy & Hin)%list_elem_of_fmap. apply Hx.
  apply list_elem_of_filter in Hin as [_ Hin]. rewrite Hy. by apply list_elem_of_fmap_2.
Qed.

Lemma Forall_filter {A} (P Q : A -> Prop) `{!forall x, Decision (P x)} (l : list A) :
  Forall Q l -> Forall Q (filter P l).
Proof.
  rewrite !Forall_forall. intros HQ x [_ Hin]%list_elem_of_filter. by apply HQ.
Qed.

Lemma table_ok_create d : table_ok d {| rows := []; next_id := 1 |}.
Proof. unfold table_ok; cbn. split_and!; constructor. Qed.

(** Every statement preserves the constraints of the schema. *)
Lemma db_exec_ok q d : db_ok d -> db_ok (db_exec q d).2.
Proof.
  intros (Hc & Hcf & Hu & Ht).
  destruct q as [|name language description| |id|u c|u c|c|u]; cbn -[integer_param].
  - destruct (user_communities d) as [t|] eqn:E; cbn.
    + unfold db_ok. by rewrite E.
    + unfold db_ok; cbn. split_and!; try done. apply table_ok_create.
  - unfold community_create.
    destruct (decide (fits_columns _ _)); [|done].
    destruct (decide (is_integer _)) as [Hint|]; [|done].
    destruct (decide _) as [Hex|Hno]; cbn.
    + unfold db_ok; cbn. split_and!; try done.
      eapply Forall_impl; [exact Hcf|]. cbn; intros; split; [tauto|lia].
    + unfold db_ok; cbn. split_and!; try done.
      * rewrite fmap_app. apply NoDup_snoc; [done|]. cbn.
        intros (c' & Hid & Hin)%list_elem_of_fmap. apply Hno, Exists_exists.
        exists c'. split; [done|]. by unfold has_id.
      * apply Forall_app. split.
        -- eapply Forall_impl; [exact Hcf|]. cbn; intros; split; [tauto|lia].
        -- constructor; [|constructor]. cbn. split; [done|lia].
      * destruct (user_communities d) as [t|]; [|done].
        destruct Ht as (? & ? & ? & ? & Hfk). unfold table_ok; cbn. split_and!; try done.
        eapply Forall_impl; [exact Hfk|]. cbn. intros m Hm. apply Exists_app. by left.
  - done.
  - by destruct (integer_param id).
  - destruct (integer_param c) as [e|c']; [done|].
    change (db_ok (insert_membership u c' d).2). clear c. revert c'. intros c.
    unfold insert_membership.
    destruct (user_communities d) as [t|] eqn:E; cbn; [|unfold db_ok; by rewrite E].
    destruct Ht as (Hp & Hi & Hf & Hfu & Hfc).
    assert (Forall (fun m => m_id m < next_id t + 1) (rows t)) as Hf'.
    { eapply Forall_impl; [exact Hf|]. cbn; intros; lia. }
    destruct (decide (Exists (is_pair u c) (rows t))) as [|Hnew]; cbn.
    { unfold db_ok, table_ok; cbn. split_and!; done. }
    destruct (decide (Exists _ (rows t))) as [|Hfresh]; cbn.
    { unfold db_ok, table_ok; cbn. split_and!; done. }
    destruct (decide _) as [[Hxu Hxc]|]; cbn.
    2:{ unfold db_ok, table_ok; cbn. split_and!; done. }
    unfold db_ok, table_ok; cbn. rewrite !fmap_app. cbn. split_and!; try done.
    + apply NoDup_snoc; [done|]. by apply no_pair_not_elem.
    + apply NoDup_snoc; [done|].
      intros (m & Hid & Hin)%list_elem_of_fmap. apply Hfresh, Exists_exists. by exists m.
    + apply Forall_app. split; [done|]. repeat constructor. cbn. lia.
    + apply Forall_app. split; [done|]. by repeat constructor.
    + apply Forall_app. split; [done|]. by repeat constructor.
  - destruct (integer_param c) as [e|c']; [done|]. unfold delete_membership.
    destruct (user_communities d) as [t|] eqn:E; cbn; [|unfold db_ok; by rewrite E].
    destruct Ht as (Hp & Hi & Hf & Hfu & Hfc).
    unfold db_ok, table_ok; cbn. split_and!; try done;
      auto using NoDup_fmap_filter, Forall_filter.
  - destruct (integer_param c) as [e|c']; [done|].
    destruct (user_communities d) as [t|] eqn:E; cbn; unfold db_ok; by rewrite E.
  - destruct (user_communities d) as [t|] eqn:E; cbn; unfold db_ok; by rewrite E.
Qed.

#[local] Instance db_ok_preorder : PreOrder (fun d d' : DB => db_ok d -> db_ok d').
Proof. split; [by intros d|intros d1 d2 d3 H12 H23 H; auto]. Qed.


Lemma find_by_pk_Some id cs c :
  find_by_pk id cs = Some c -> c ∈ cs /\ c_id c = id.
Proof.
  unfold find_by_pk. destruct (list_find _ cs) as [[i c']|] eqn:E; [|done].
  cbn. intros [= ->]. apply list_find_Some in E as (Hi & Hc & _).
  split; [by eapply list_elem_of_lookup_2|done].
Qed.

Lemma find_by_pk_None id cs :
  find_by_pk id cs = None <-> ~ Exists (has_id id) cs.
Proof.
  unfold find_by_pk. rewrite fmap_None, list_find_None, <- Forall_Exists_neg. done.
Qed.

Lemma find_by_pk_exists id cs c :
  find_by_pk id cs = Some c -> Exists (has_id id) cs.
Proof.
  intros [Hin Hid]%find_by_pk_Some. apply Exists_exists. by exists c.
Qed.

Lemma integer_param_number z : is_integer z -> integer_param (IdNumber z) = inr z.
Proof. intros Hz. cbn. by rewrite decide_True. Qed.

Lemma integer_param_error id :
  not_an_integer id -> exists e, integer_param id = inl e /\ e <> ConnectionLost.
Proof.
  destruct id as [z|s]; cbn; intros Hn.
  - rewrite decide_False by done. by eexists.
  - by eexists.
Qed.

Lemma integer_param_cases id :
  (exists z, id = IdNumber z /\ is_integer z /\ integer_param id = inr z) \/
  (not_an_integer id /\ exists e, integer_param id = inl e).
Proof.
  destruct id as [z|s]; cbn.
  - destruct (decide (is_integer z)); [left|right]; eauto.
  - right. eauto.
Qed.

(** The ids of stored communities are [INTEGER] values. *)
Lemma stored_id_integer d id :
  db_ok d -> Exists (has_id id) (communities d) -> is_integer id.
Proof.
  intros (_ & Hcf & _) (c & Hin & Hid)%Exists_exists.
  rewrite Forall_forall in Hcf. destruct (Hcf c Hin) as [Hint _].
  unfold has_id in Hid. by rewrite <- Hid.
Qed.

Lemma db_exec_find id d :
  is_integer id ->
  db_exec (CommunityFindByPk (IdNumber id)) d = (inr (find_by_pk id (communities d)), d).
Proof. intros Hid. cbn -[integer_param]. by rewrite integer_param_number. Qed.

Lemma db_exec_find_error id d e :
  integer_param id = inl e -> db_exec (CommunityFindByPk id) d = (inl e, d).
Proof. intros E. cbn -[integer_param]. by rewrite E. Qed.

(** [CREATE TABLE IF NOT EXISTS] never fails at the store and only makes the
    table exist: rows, communities and users are as before. *)
Lemma db_exec_create_table d :
  exists t, db_exec CreateUserCommunities d = (inr tt, set_user_communities d t) /\
    rows t = memberships d /\
    (forall t0, user_communities d = Some t0 -> t = t0).
Proof.
  unfold memberships. cbn. destruct (user_communities d) as [t|] eqn:E.
  - exists t. split_and!; [|done|congruence].
    f_equal. destruct d; cbn in *. by rewrite E.
  - by eexists.
Qed.



(** ** Joining *)



(** A statement that is not lost to an outage is answered by the store. *)
Lemma exec_reaches q w :
  ~ next_fails w ->
  exec q w =
    ((db_exec q (w_db w)).1,
     {| w_db := (db_exec q (w_db w)).2; w_faults := tail (w_faults w);
        w_trace := w_trace w ++ [(q, failure (db_exec q (w_db w)).1)];
        w_log := w_log w |}).
Proof.
  unfold next_fails, exec. intros Hn.
  destruct (w_faults w) as [|[] fs]; cbn in *; [|done|];
    by destruct (db_exec q (w_db w)).
Qed.

(** C5. Joining at a community id that no community has.  When the id is a
    value of the [INTEGER] key the answer is 404 "Community not found"; when
    it is none (too large, or no number) the lookup fails and the answer is
    500.  Either way the only statement issued is the lookup, which comes
    first, so nothing is inserted and the store is unchanged. *)
Theorem joinCommunity_unknown_community req w :
  ~ next_fails w ->
  let r := run (joinCommunity req) w in
  (forall cid, req_params_id req = IdNumber cid -> is_integer cid ->
     find_by_pk cid (communities (w_db w)) = None ->
     r.1 = inr (res_status_json 404 (error_body "Community not found")) /\
     w_trace r.2 = w_trace w ++ [(CommunityFindByPk (req_params_id req), None)]) /\
  (not_an_integer (req_params_id req) ->
     r.1 = inr (res_status_json 500 (error_body "Internal server error")) /\
     exists e, w_trace r.2 = w_trace w ++ [(CommunityFindByPk (req_params_id req), Some e)]) /\
  ((forall cid, req_params_id req = IdNumber cid ->
      find_by_pk cid (communities (w_db w)) = None) ->
   w_db r.2 = w_db w).
Proof.
  intros Hn. unfold joinCommunity. cbn -[exec].
  rewrite exec_reaches by done. split_and!.
  - intros cid Hid Hint Hfind. rewrite Hid, db_exec_find by done. cbn.
    rewrite Hfind. done.
  - intros (e & E & _)%integer_param_error.
    rewrite (db_exec_find_error _ _ e) by done. cbn. eauto.
  - intros Hfind. destruct (integer_param_cases (req_params_id req))
      as [(z & Hid & Hint & _)|(_ & e & E)].
    + rewrite Hid, db_exec_find by done. cbn. by rewrite (Hfind z Hid).
    + by rewrite (db_exec_find_error _ _ e).
Qed.

(** ** Fetching one community *)

Lemma find_by_pk_unique (cs : list Community) c :
  NoDup (c_id <$> cs) -> c ∈ cs -> find_by_pk (c_id c) cs = Some c.
Proof.
  intros Hnd Hin.
  destruct (find_by_pk (c_id c) cs) as [c'|] eqn:E.
  - apply find_by_pk_Some in E as [Hin' Hid]. f_equal.
    apply list_elem_of_lookup in Hin as [i Hi], Hin' as [j Hj].
    assert (i = j) as ->; [|congruence].
    eapply NoDup_lookup; [exact Hnd| |].
    + rewrite list_lookup_fmap, Hi. done.
    + rewrite list_lookup_fmap, Hj. cbn. by rewrite Hid.
  - apply find_by_pk_None in E. destruct E. apply Exists_exists. by exists c.
Qed.

(** C6. Fetching a community by id.  For an id that is a value of the
    [INTEGER] key: 404 "Community not found" when no row has that id, otherwise
    200 with exactly the stored id, name, language and description of the row
    with that id.  For an id that is none (too large, or no number, as in
    [GET /user]) the lookup fails and the answer is 500.  The store is never
    changed. *)
Theorem getCommunityById_spec req w :
  ~ next_fails w ->
  let r := run (getCommunityById req) w in
  (forall cid, req_params_id req = IdNumber cid -> is_integer cid ->
     ~ Exists (has_id cid) (communities (w_db w)) ->
     r.1 = inr (res_status_json 404 (error_body "Community not found"))) /\
  (forall c, NoDup (c_id <$> communities (w_db w)) ->
     c ∈ communities (w_db w) -> is_integer (c_id c) ->
     req_params_id req = IdNumber (c_id c) ->
     r.1 = inr (res_status_json 200
                  (JObj [("id", JNum (c_id c)); ("name", JStr (c_name c));
                         ("language",
                          match c_language c with Some s => JStr s | None => JNull end);
                         ("description",
                          match c_description c with Some s => JStr s | None => JNull end)]))) /\
  (not_an_integer (req_params_id req) ->
     r.1 = inr (res_status_json 500 (error_body "Internal server error"))) /\
  w_db r.2 = w_db w.
Proof.
  intros Hn. unfold getCommunityById. cbn -[exec].
  rewrite exec_reaches by done. split_and!.
  - intros cid Hid Hint Hno. rewrite Hid, db_exec_find by done. cbn.
    apply find_by_pk_None in Hno. by rewrite Hno.
  - intros c Hnd Hin Hint Hid. rewrite Hid, db_exec_find by done. cbn.
    rewrite find_by_pk_unique by done. done.
  - intros (e & E & _)%integer_param_error.
    by rewrite (db_exec_find_error _ _ e).
  - destruct (integer_param_cases (req_params_id req))
      as [(z & Hid & Hint & _)|(_ & e & E)].
    + rewrite Hid, db_exec_find by done. cbn. by destruct (find_by_pk _ _).
    + by rewrite (db_exec_find_error _ _ e).
Qed.

(** ** Creating a community *)

(** C3. Creating a community: a caller whose role is not "admin" gets 403, an
    admin whose name is missing or empty gets 400; in both cases no statement
    is issued and the world, store included, is exactly as before. *)
Theorem createCommunity_rejects req w :
  (user_role (req_user req) <> "admin" ->
   run (createCommunity req) w =
     (inr (res_status_json 403 (error_body "Only admins can create communities")), w)) /\
  (user_role (req_user req) = "admin" ->
   body_name (req_body req) = None \/ body_name (req_body req) = Some "" ->
   run (createCommunity req) w =
     (inr (res_status_json 400 (error_body "Community name is required")), w)).
Proof.
  unfold createCommunity. split.
  - intros Hrole. apply String.eqb_neq in Hrole. rewrite Hrole. done.
  - intros Hrole Hname. apply String.eqb_eq in Hrole. rewrite Hrole. cbn.
    by destruct Hname as [->| ->].
Qed.

(** ** Leaving *)

(** The reply to the typed DELETE has no second component, whatever was
    deleted. *)
Lemma no_rows_affected_delete_reply n : no_rows_affected (delete_reply n) = false.
Proof. done. Qed.

Lemma db_exec_delete u c d :
  is_integer c ->
  db_exec (DeleteMembership u (IdNumber c)) d = delete_membership u c d.
Proof. intros Hc. cbn -[integer_param]. by rewrite integer_param_number. Qed.

(** Leaving with an id that is an [INTEGER] value, no statement lost: the
    delete runs and the answer is 200, whether a row was there or not. *)
Lemma leave_run_db req d cid :
  req_params_id req = IdNumber cid -> is_integer cid ->
  exists d',
    run_db (leaveCommunity req) d =
      (inr (res_status_json 200 (message_body "Successfully left community")), d') /\
    communities d' = communities d /\ users d' = users d /\
    memberships d' =
      filter (fun m => ~ is_pair (user_id (req_user req)) cid m) (memberships d).
Proof.
  intros Hid Hint. unfold leaveCommunity, createUserCommunityModel.
  rewrite Hid. cbn -[db_exec].
  destruct (db_exec_create_table d) as (t & -> & Hrows & _).
  cbn -[db_exec]. rewrite db_exec_delete by done.
  unfold delete_membership. cbn. rewrite Hrows. by eexists.
Qed.

Lemma leave_run req w cid :
  healthy w ->
  req_params_id req = IdNumber cid -> is_integer cid ->
  let r := run (leaveCommunity req) w in
  r.1 = inr (res_status_json 200 (message_body "Successfully left community")) /\
  memberships (w_db r.2) =
    filter (fun m => ~ is_pair (user_id (req_user req)) cid m) (memberships (w_db w)).
Proof.
  intros Hw Hid Hint.
  destruct (run_healthy (leaveCommunity req) w Hw) as (E1 & E2 & _).
  destruct (leave_run_db req (w_db w) cid Hid Hint) as (d' & Hrun & _ & _ & Hrows).
  destruct (run (leaveCommunity req) w) as [o w']. rewrite Hrun in E1, E2.
  cbn in *. by subst o d'.
Qed.

(** Leaving with an id that is no [INTEGER] value: the delete fails, the
    answer is 500 and the rows are as before. *)
Lemma leave_run_bad_id req w :
  healthy w -> not_an_integer (req_params_id req) ->
  let r := run (leaveCommunity req) w in
  r.1 = inr (res_status_json 500 (error_body "Internal server error")) /\
  memberships (w_db r.2) = memberships (w_db w) /\
  communities (w_db r.2) = communities (w_db w) /\
  users (w_db r.2) = users (w_db w).
Proof.
  intros Hw (e & E & _)%integer_param_error.
  destruct (run_healthy (leaveCommunity req) w Hw) as (E1 & E2 & _).
  cbn zeta. rewrite E1, E2. clear E1 E2.
  unfold leaveCommunity, createUserCommunityModel. cbn -[db_exec].
  destruct (db_exec_create_table (w_db w)) as (t & -> & Hrows & _).
  cbn -[integer_param]. rewrite E. cbn. done.
Qed.

Lemma healthy_reaches w : healthy w -> ~ next_fails w.
Proof. unfold next_fails. intros Hw. destruct Hw; cbn; congruence. Qed.

(** C2. The code at a caller who never joined: Ann leaves community 1, of
    which she has no membership row.  The delete runs, its reply is the empty
    array of returned rows, so [result[1] === 0] is false and the answer is
    200 "Successfully left community", not 404 "Membership not found". *)
Theorem leaveCommunity_non_member_answered_200 :
  let r := run (leaveCommunity (Sample.ann_req 1)) (Sample.world Sample.db) in
  ~ Exists (is_pair 7 1) (memberships Sample.db) /\
  w_trace r.2 = [(CreateUserCommunities, None);
                 (DeleteMembership 7 (IdNumber 1), None)] /\
  r.1 = inr (res_status_json 200 (message_body "Successfully left community")) /\
  r.1 <> inr (res_status_json 404 (error_body "Membership not found")) /\
  memberships (w_db r.2) = [].
Proof.
  cbn. split_and!; try done. intros Hex. by inversion Hex.
Qed.

(** C9. Leaving never looks the community up: the only statements it can issue
    are the table creation and the delete, and it never answers "Community not
    found".  Joining and listing members start with the lookup, and for an id
    that is a value of the [INTEGER] key and has no community row they answer
    404 "Community not found". *)
Theorem leaveCommunity_no_existence_check req :
  let u := user_id (req_user req) in
  let c := req_params_id req in
  only (fun q => q = CreateUserCommunities \/ q = DeleteMembership u c)
       (leaveCommunity req) /\
  (exists l k, joinCommunity req = Log l (Call (CommunityFindByPk c) k)) /\
  (exists l k, getCommunityMembers req = Log l (Call (CommunityFindByPk c) k)) /\
  forall w, healthy w ->
    (forall resp, (run (leaveCommunity req) w).1 = inr resp ->
       body resp <> error_body "Community not found") /\
    (forall cid, c = IdNumber cid -> is_integer cid ->
       ~ Exists (has_id cid) (communities (w_db w)) ->
       (run (joinCommunity req) w).1 =
         inr (res_status_json 404 (error_body "Community not found")) /\
       (run (getCommunityMembers req) w).1 =
         inr (res_status_json 404 (error_body "Community not found"))).
Proof.
  intros u c. split_and!.
  - unfold leaveCommunity, createUserCommunityModel. walk_program; auto.
  - by do 2 eexists.
  - by do 2 eexists.
  - intros w Hw. subst u c. split.
    + intros resp.
      destruct (integer_param_cases (req_params_id req))
        as [(z & Hid & Hint & _)|(Hbad & _)].
      * destruct (leave_run req w z Hw Hid Hint) as [-> _]. by intros [= <-].
      * destruct (leave_run_bad_id req w Hw Hbad) as [-> _]. by intros [= <-].
    + intros cid Hid Hint Hno. apply healthy_reaches in Hw.
      apply find_by_pk_None in Hno. split.
      * unfold joinCommunity. cbn -[exec]. rewrite exec_reaches by done.
        rewrite Hid, db_exec_find by done. cbn. by rewrite Hno.
      * unfold getCommunityMembers. cbn -[exec]. rewrite exec_reaches by done.
        rewrite Hid, db_exec_find by done. cbn. by rewrite Hno.
Qed.

(** ** What joining and leaving leave alone *)

#[local] Instance untouched_outside_preorder u c : PreOrder (untouched_outside u c).
Proof.
  split.
  - by intros d.
  - intros d1 d2 d3 (H1 & H2 & H3 & H4) (G1 & G2 & G3 & G4).
    unfold untouched_outside. rewrite G1, G2, G3, G4. done.
Qed.

Lemma filter_twice {A} (P : A -> Prop) `{!forall x, Decision (P x)} (l : list A) :
  filter P (filter P l) = filter P l.
Proof.
  induction l as [|x l IH]; [done|].
  rewrite filter_cons. destruct (decide (P x)); [|done].
  rewrite filter_cons_True by done. by rewrite IH.
Qed.

(** The number a path segment names, when it names one. *)
Lemma integer_param_names id c z :
  id = IdNumber c \/ (exists s, id = IdWord s) ->
  integer_param id = inr z -> z = c.
Proof.
  intros [->|[s ->]]; cbn; [|done].
  destruct (decide _); [|done]. by intros [= ->].
Qed.

Lemma membership_statement_untouched u id c q d :
  id = IdNumber c \/ (exists s, id = IdWord s) ->
  membership_statement u id q -> untouched_outside u c d (db_exec q d).2.
Proof.
  intros Hid [->|[->|[->| ->]]].
  - cbn -[integer_param]. by destruct (integer_param id).
  - destruct (db_exec_create_table d) as (t & -> & Hrows & _).
    unfold untouched_outside, memberships at 1. cbn. by rewrite Hrows.
  - cbn -[integer_param].
    destruct (integer_param id) as [e|z] eqn:Ez; [done|].
    apply (integer_param_names id c z Hid) in Ez as ->.
    unfold insert_membership, untouched_outside, memberships.
    destruct (user_communities d) as [t|] eqn:E; [|by cbn; rewrite ?E].
    repeat (destruct (decide _); cbn); try done.
    rewrite filter_app, (filter_cons_False (fun m => ~ is_pair u c m));
      [by rewrite filter_nil, app_nil_r|].
    cbn. intros Hn. by apply Hn.
  - cbn -[integer_param].
    destruct (integer_param id) as [e|z] eqn:Ez; [done|].
    apply (integer_param_names id c z Hid) in Ez as ->.
    unfold delete_membership, untouched_outside, memberships.
    destruct (user_communities d) as [t|] eqn:E; [|by cbn; rewrite ?E].
    cbn. by rewrite filter_twice.
Qed.

(** C10. Joining and leaving touch nothing but the membership rows of the
    pair made of the caller's id and the community id of the path: the
    communities, the users and the rows of every other pair are as before,
    whatever outages occur; and the request body plays no part.  [c] is the
    number the path segment names; a segment that names none is paired with
    no row, so that every [c] will do. *)
Theorem join_leave_frame req w :
  let u := user_id (req_user req) in
  (forall c,
     req_params_id req = IdNumber c \/ (exists s, req_params_id req = IdWord s) ->
     untouched_outside u c (w_db w) (w_db (run (joinCommunity req) w).2) /\
     untouched_outside u c (w_db w) (w_db (run (leaveCommunity req) w).2)) /\
  forall b,
    joinCommunity (mkRequest (req_user req) (req_params_id req) b) = joinCommunity req /\
    leaveCommunity (mkRequest (req_user req) (req_params_id req) b) = leaveCommunity req.
Proof.
  intros u. split; [|done]. intros c Hc. split.
  - apply (run_only _ (membership_statement u (req_params_id req)));
      [intros; by eapply membership_statement_untouched|].
    unfold joinCommunity, createUserCommunityModel, membership_statement.
    walk_program; auto.
  - apply (run_only _ (membership_statement u (req_params_id req)));
      [intros; by eapply membership_statement_untouched|].
    unfold leaveCommunity, createUserCommunityModel, membership_statement.
    walk_program; auto.
Qed.

(** ** Error responses *)

Lemma run_behaves p w b :
  behaves b p ->
  exists resp evs,
    (run p w).1 = inr resp /\
    w_trace (run p w).2 = w_trace w ++ evs /\
    if decide (b = true \/ Exists failed evs)
    then resp = internal_error else settled resp.
Proof.
  revert w b. induction p as [resp|e|q k IH|entry k IH]; intros w b Hb; cbn in *.
  - exists resp, []. rewrite app_nil_r. split_and!; [done|done|].
    destruct (decide _) as [[->|Hex]|Hno]; [done|by inversion Hex|].
    destruct b; [|done]. destruct Hno. by left.
  - done.
  - destruct Hb as [Hok Herr]. pose proof (exec_trace q w) as Ht.
    destruct (exec q w) as [[e|r] w']; cbn in Ht.
    + destruct (IH (inl e) w' true (Herr e)) as (resp & evs & E1 & E2 & E3).
      exists resp, ((q, Some e) :: evs). split_and!; [done| |].
      * rewrite E2, Ht, <- app_assoc. done.
      * rewrite decide_True in E3 by by left.
        rewrite decide_True; [done|]. right. left. by eexists.
    + destruct (IH (inr r) w' b (Hok r)) as (resp & evs & E1 & E2 & E3).
      exists resp, ((q, None) :: evs). split_and!; [done| |].
      * rewrite E2, Ht, <- app_assoc. done.
      * destruct (decide (b = true \/ Exists failed evs)) as [Hyes|Hno].
        -- rewrite decide_True; [done|]. destruct Hyes; [by left|right; by right].
        -- rewrite decide_False; [done|]. intros [?|Hex]; [tauto|].
           inversion Hex as [? ? Hhd|]; subst; [|tauto].
           by destruct Hhd.
  - by apply (IH (write_log entry w)).
Qed.

Lemma settled_success code b : code ∈ [200; 201] -> settled (res_status_json code b).
Proof.
  rewrite !elem_of_cons, elem_of_nil. intros [->|[->|[]]];
    (split; [rewrite !elem_of_cons; auto 10|cbn; lia]).
Qed.

Lemma settled_error code msg :
  code ∈ [400; 403; 404] -> settled (res_status_json code (error_body msg)).
Proof.
  rewrite !elem_of_cons, elem_of_nil. intros [->|[->|[->|[]]]];
    (split; [rewrite !elem_of_cons; auto 10|by eexists]).
Qed.

Lemma handler_behaves op req : behaves false (handler op req).
Proof.
  destruct op; cbn -[behaves];
    unfold createCommunity, getAllCommunities, getCommunityById, joinCommunity,
      leaveCommunity, getCommunityMembers, getUserCommunities,
      createUserCommunityModel, internal_error;
    repeat match goal with
    | |- _ /\ _ => split
    | |- forall _, _ => intro
    | |- context [if ?x then _ else _] => destruct x
    | |- context [match ?x with Some _ => _ | None => _ end] => destruct x
    | |- _ = _ => reflexivity
    | |- settled (res_status_json _ (error_body _)) =>
        apply settled_error; rewrite !elem_of_cons; by auto 10
    | |- settled _ => apply settled_success; rewrite !elem_of_cons; by auto 10
    | _ => progress cbn -[settled]
    end.
Qed.

(** C8. Every operation always answers, with one of the statuses of the
    interface.  An error status (400, 403, 404 or 500) comes with a body that
    is a JSON object with the single field [error], a string.  A run in which
    a statement failed is answered by 500 "Internal server error", whatever
    the failure was; and 500 is answered in no other run. *)
Theorem error_responses op req w :
  exists resp,
    (run (handler op req) w).1 = inr resp /\
    status resp ∈ [200; 201; 400; 403; 404; 500] /\
    (400 <= status resp -> exists msg, body resp = JObj [("error", JStr msg)]) /\
    (Exists failed (events_of (handler op req) w) ->
     resp = res_status_json 500 (JObj [("error", JStr "Internal server error")])) /\
    (status resp = 500 -> Exists failed (events_of (handler op req) w)).
Proof.
  destruct (run_behaves (handler op req) w false (handler_behaves op req))
    as (resp & evs & E1 & E2 & E3).
  exists resp. unfold events_of. rewrite E2, drop_app_length.
  destruct (decide _) as [[?|Hex]|Hno]; [done| |].
  - subst resp. split_and!; try done.
    + rewrite !elem_of_cons. auto 10.
    + by eexists.
  - destruct E3 as [Hstatus Hbody]. split_and!; try done.
    + rewrite !elem_of_cons in Hstatus. rewrite !elem_of_cons. intuition.
    + tauto.
    + intros H500. rewrite H500, !elem_of_cons, elem_of_nil in Hstatus.
      intuition discriminate.
Qed.

(** ** Listing members *)

Lemma bind_nil_const {A B} (l : list A) : l ≫= (fun _ => @nil B) = [].
Proof. by induction l. Qed.

Lemma bind_app_fun {A B} (f g : A -> list B) (l : list A) :
  l ≫= (fun x => f x ++ g x) ≡ₚ (l ≫= f) ++ (l ≫= g).
Proof.
  induction l as [|x l IH]; [done|].
  rewrite !bind_cons, IH, <- !app_assoc. f_equiv.
  rewrite !app_assoc. f_equiv. apply Permutation_app_comm.
Qed.

(** A nested loop join does not depend on which table is the outer one. *)
Lemma bind_swap {A B C} (f : A -> B -> list C) (la : list A) (lb : list B) :
  (a ← la; b ← lb; f a b) ≡ₚ (b ← lb; a ← la; f a b).
Proof.
  induction la as [|a la IH]; cbn.
  - by rewrite bind_nil_const.
  - rewrite IH. symmetry. apply (bind_app_fun (f a) (fun b => la ≫= (fun a => f a b))).
Qed.

Lemma member_of_cons u us m :
  member_of (u :: us) m =
    if decide (u_id u = m_user_id m) then Some (member_row u m) else member_of us m.
Proof.
  unfold member_of. cbn. unfold is_user at 1.
  destruct (decide (u_id u = m_user_id m)); [done|].
  by destruct (list_find _ us) as [[]|].
Qed.

(** With [users.id] a key, a membership matches at most the user it references. *)
Lemma join_one_membership us m c :
  NoDup (u_id <$> us) ->
  us ≫= (fun u => if decide (u_id u = m_user_id m /\ in_community c m)
                  then [member_row u m] else [])
  = if decide (in_community c m) then option_list (member_of us m) else [].
Proof.
  induction us as [|u us IH]; intros Hnd.
  - by destruct (decide _).
  - rewrite fmap_cons, NoDup_cons in Hnd. destruct Hnd as [Hu Hnd].
    rewrite bind_cons, IH, member_of_cons by done.
    destruct (decide (in_community c m)) as [Hc|Hc].
    + destruct (decide (u_id u = m_user_id m)) as [Hid|Hid].
      * rewrite decide_True by done. cbn. f_equal.
        assert (member_of us m = None) as ->; [|done].
        unfold member_of. rewrite !fmap_None. apply list_find_None, Forall_forall.
        intros u' Hin Hu'. apply Hu. rewrite Hid, <- Hu'. by apply list_elem_of_fmap_2.
      * rewrite decide_False by tauto. done.
    + rewrite decide_False by tauto. done.
Qed.

(** The join behind [SelectMembers]: one row per membership of the community
    whose user exists, before ordering. *)
Lemma members_join_perm us ms c :
  NoDup (u_id <$> us) ->
  members_join us ms c ≡ₚ omap (member_of us) (filter (in_community c) ms).
Proof.
  intros Hnd. unfold members_join.
  rewrite (bind_swap (fun u m => if decide (u_id u = m_user_id m /\ in_community c m)
                                 then [member_row u m] else []) us ms).
  induction ms as [|m ms IH]; [done|].
  rewrite bind_cons, IH, join_one_membership, filter_cons by done.
  destruct (decide (in_community c m)); [|done].
  cbn. by destruct (member_of us m).
Qed.

#[local] Instance joined_le_total : Total joined_le.
Proof. intros a b. unfold joined_le. lia. Qed.

#[local] Instance joined_le_trans : Transitive joined_le.
Proof. intros a b c. unfold joined_le. lia. Qed.

Lemma StronglySorted_weaken {A} (R S : relation A) (l : list A) :
  (forall a b, R a b -> S a b) -> StronglySorted R l -> StronglySorted S l.
Proof.
  intros HRS. induction 1 as [|x l _ IH Hx]; constructor; [done|].
  eapply Forall_impl; [exact Hx|]. intros y. apply HRS.
Qed.

Lemma omap_all_some {A B} (f : A -> option B) (l : list A) :
  Forall (fun x => is_Some (f x)) l -> Some <$> omap f l = f <$> l.
Proof.
  induction 1 as [|x l [y Hy] _ IH]; [done|].
  cbn. rewrite Hy. cbn. by rewrite IH.
Qed.

(** Foreign key to [users]: every membership has its user. *)
Lemma member_of_is_Some d m :
  db_ok d -> m ∈ memberships d -> is_Some (member_of (users d) m).
Proof.
  intros (_ & _ & _ & Ht) Hin. unfold memberships in Hin.
  destruct (user_communities d) as [t|]; [|by apply elem_of_nil in Hin].
  destruct Ht as (_ & _ & _ & Hfk & _). rewrite Forall_forall in Hfk.
  specialize (Hfk m Hin). apply Exists_exists in Hfk as (u & Hu & Hid).
  unfold member_of. rewrite !fmap_is_Some. by eapply list_find_elem_of.
Qed.

Lemma members_run_db req d cid c0 :
  req_params_id req = IdNumber cid -> is_integer cid ->
  find_by_pk cid (communities d) = Some c0 ->
  (run_db (getCommunityMembers req) d).1 =
    inr (res_status_json 200
           (JArr (map member_json (select_members (users d) (memberships d) cid)))).
Proof.
  intros Hid Hint Hfind.
  unfold getCommunityMembers, createUserCommunityModel. rewrite Hid.
  cbn -[db_exec]. rewrite db_exec_find, Hfind by done. cbn -[db_exec].
  destruct (db_exec_create_table d) as (t & -> & Hrows & _).
  cbn -[integer_param]. rewrite integer_param_number by done. cbn. by rewrite Hrows.
Qed.

Lemma member_of_member_pair us m :
  member_of us m = (fun r => member_row r.1 r.2) <$> member_pair us m.
Proof.
  unfold member_of, member_pair. by destruct (list_find _ us) as [[i u]|].
Qed.

Lemma member_pair_Some us m r :
  member_pair us m = Some r -> r.1 ∈ us /\ u_id r.1 = m_user_id m /\ r.2 = m.
Proof.
  unfold member_pair. destruct (list_find _ us) as [[i u]|] eqn:E; [|done].
  cbn. intros [= <-]. apply list_find_Some in E as (Hi & Hu & _).
  split_and!; [by eapply list_elem_of_lookup_2|done|done].
Qed.

Lemma omap_member_of_pair us (ms : list Membership) :
  omap (member_of us) ms = (fun r => member_row r.1 r.2) <$> omap (member_pair us) ms.
Proof.
  induction ms as [|m ms IH]; [done|]. cbn. rewrite member_of_member_pair.
  destruct (member_pair us m); cbn; by rewrite IH.
Qed.

Lemma omap_member_pair_snd us (ms : list Membership) :
  Forall (fun m => is_Some (member_of us m)) ms ->
  snd <$> omap (member_pair us) ms = ms.
Proof.
  induction 1 as [|m ms [r Hr] _ IH]; [done|].
  rewrite member_of_member_pair in Hr. cbn.
  destruct (member_pair us m) as [p|] eqn:E; [|done].
  apply member_pair_Some in E as (_ & _ & E). cbn. by rewrite E, IH.
Qed.

Lemma Sorted_fmap_inv {A B} (R : relation B) (f : A -> B) (l : list A) :
  Sorted R (f <$> l) -> Sorted (fun a b => R (f a) (f b)) l.
Proof.
  induction l as [|x l IH]; [constructor|].
  rewrite fmap_cons. intros [Hs Hhd]%Sorted_inv. constructor; [by apply IH|].
  destruct l; [constructor|]. rewrite fmap_cons in Hhd.
  apply HdRel_inv in Hhd. by constructor.
Qed.

Lemma Sorted_fmap {A B} (R : relation B) (f : A -> B) (l : list A) :
  Sorted (fun a b => R (f a) (f b)) l -> Sorted R (f <$> l).
Proof.
  induction 1 as [|x l Hs IH Hhd]; [constructor|].
  rewrite fmap_cons. constructor; [done|].
  destruct Hhd; [constructor|]. rewrite fmap_cons. by constructor.
Qed.

(** Memberships in [joined_at] order are the only ordering of a set of
    memberships with distinct times. *)
Lemma sorted_memberships_unique (l1 l2 : list Membership) :
  Sorted (fun a b => m_joined_at a <= m_joined_at b) l1 ->
  StronglySorted (fun a b => m_joined_at a < m_joined_at b) l2 ->
  l1 ≡ₚ l2 -> l1 = l2.
Proof.
  intros H1 H2 Hp.
  assert (Transitive (fun a b : Membership => m_joined_at a <= m_joined_at b)) as Htr.
  { intros a b c. lia. }
  assert (forall x y, x ∈ l2 -> y ∈ l2 -> m_joined_at x = m_joined_at y -> x = y) as Hkey.
  { clear H1 Hp. induction H2 as [|z l Hs IH Hz]; [by intros ? ? ?%elem_of_nil|].
    rewrite Forall_forall in Hz.
    intros x y [->|Hx]%elem_of_cons [->|Hy]%elem_of_cons Hk; auto.
    - specialize (Hz y Hy). lia.
    - specialize (Hz x Hx). lia. }
  apply (StronglySorted_unique_strong (fun a b => m_joined_at a <= m_joined_at b));
    [| | |done].
  - intros x1 x2 Hx1 Hx2 Hle Hge. apply Hkey; [by rewrite <- Hp|done|lia].
  - by apply Sorted_StronglySorted.
  - eapply StronglySorted_weaken; [|exact H2]. cbn. intros a b. lia.
Qed.

(** C4. Listing the members of an existing community answers 200 with one row
    per membership of that community: the id, name, email and profile picture
    of the user the membership references and the membership's [joined_at],
    in ascending [joined_at] order.  The order of the rows in the table plays
    no part: when the join times are distinct, the answer lists the
    memberships in the one order that is increasing in time (so three users
    who joined at T1 < T2 < T3 are listed in that order).  [cid] is the number
    the path segment denotes; [listed] pairs each row of the answer with the
    user and the membership it shows. *)
Theorem getCommunityMembers_sorted req w cid c0 :
  healthy w -> db_ok (w_db w) ->
  req_params_id req = IdNumber cid ->
  find_by_pk cid (communities (w_db w)) = Some c0 ->
  let joined := filter (fun m => m_community_id m = cid) (memberships (w_db w)) in
  exists listed : list (User * Membership),
    (run (getCommunityMembers req) w).1 =
      inr {| status := 200;
             body := JArr (map (fun r =>
               JObj [("id", JNum (u_id r.1)); ("name", JStr (u_name r.1));
                     ("email", JStr (u_email r.1));
                     ("profile_picture",
                      match u_profile_picture r.1 with
                      | Some picture => JStr picture
                      | None => JNull
                      end);
                     ("joined_at", JNum (m_joined_at r.2))]) listed) |} /\
    Forall (fun r => r.1 ∈ users (w_db w) /\ u_id r.1 = m_user_id r.2) listed /\
    snd <$> listed ≡ₚ joined /\
    Sorted (fun a b => m_joined_at a.2 <= m_joined_at b.2) listed /\
    forall expected,
      expected ≡ₚ joined ->
      StronglySorted (fun a b => m_joined_at a < m_joined_at b) expected ->
      snd <$> listed = expected.
Proof.
  intros Hw Hok Hid Hfind joined. set (us := users (w_db w)).
  destruct (run_healthy (getCommunityMembers req) w Hw) as (E & _ & _).
  assert (is_integer cid) as Hint.
  { apply (stored_id_integer (w_db w)); [done|by eapply find_by_pk_exists]. }
  rewrite (members_run_db req (w_db w) cid c0 Hid Hint Hfind) in E.
  assert (Forall (fun m => is_Some (member_of us m)) joined) as Hfk.
  { apply Forall_forall. intros m [_ Hin]%list_elem_of_filter.
    by apply member_of_is_Some. }
  assert (select_members us (memberships (w_db w)) cid
          ≡ₚ (fun r => member_row r.1 r.2) <$> omap (member_pair us) joined) as Hperm.
  { unfold select_members. rewrite merge_sort_Permutation.
    rewrite members_join_perm by by destruct Hok as (_ & _ & ? & _).
    by rewrite omap_member_of_pair. }
  apply Permutation_map_inv in Hperm as (listed & Hlisted & Hpairs).
  assert (snd <$> listed ≡ₚ joined) as Hsnd.
  { rewrite <- Hpairs. by rewrite omap_member_pair_snd. }
  assert (Sorted (fun a b => m_joined_at a.2 <= m_joined_at b.2) listed) as Hsorted.
  { apply (Sorted_fmap_inv joined_le (fun r => member_row r.1 r.2)).
    change (map ?f ?l) with (f <$> l) in Hlisted. rewrite <- Hlisted.
    apply Sorted_merge_sort, _. }
  exists listed. split_and!; [| |done|done|].
  - rewrite E. fold us. rewrite Hlisted, map_map. done.
  - apply Forall_forall. intros r Hr. rewrite <- Hpairs in Hr.
    apply list_elem_of_omap in Hr as (m & _ & Hr).
    apply member_pair_Some in Hr as (Hin & Hu & ->). done.
  - intros expected Hexp Hstrict. apply sorted_memberships_unique; [|done|].
    + by apply (Sorted_fmap (fun a b => m_joined_at a <= m_joined_at b) snd).
    + by rewrite Hsnd, Hexp.
Qed.

(** ** Concurrent joins *)









(** ** The properties at work on sample data *)


Lemma sample_db_joined_ok : db_ok Sample.db_joined.
Proof. apply (bool_decide_unpack _). vm_compute. exact I. Defined.

Lemma sample_world_healthy d : healthy (Sample.world d).
Proof. constructor. Defined.


(** The scenario of the specification: an admin creates "Rustaceans", Ann
    joins it twice, and the member list shows her once. *)
Example scenario :
  let empty := {| communities := []; communities_seq := 1;
                  users := [Sample.ann]; user_communities := None;
                  current_timestamp := 5 |} in
  let r1 := run (createCommunity
                   (Sample.admin_req (mkReqBody (Some "Rustaceans") (Some "rust") None)))
                (Sample.world empty) in
  let r2 := run (joinCommunity (Sample.ann_req 1)) r1.2 in
  let r3 := run (joinCommunity (Sample.ann_req 1)) r2.2 in
  let r4 := run (getCommunityMembers (Sample.ann_req 1)) r3.2 in
  r1.1 = inr (res_status_json 201
                (JObj [("id", JNum 1); ("name", JStr "Rustaceans");
                       ("language", JStr "rust"); ("description", JNull)])) /\
  r2.1 = inr (res_status_json 200 (message_body "Successfully joined community")) /\
  r3.1 = r2.1 /\
  r4.1 = inr (res_status_json 200
                (JArr [JObj [("id", JNum 7); ("name", JStr "Ann");
                             ("email", JStr "ann@example.org");
                             ("profile_picture", JNull); ("joined_at", JNum 5)]])).
Proof. vm_compute. done. Qed.

(** Rows stored in the order 20, 30, 10 are listed in the order 10, 20, 30. *)
Example members_in_join_order :
  (run (getCommunityMembers (Sample.ann_req 1)) (Sample.world Sample.db_joined)).1 =
  inr (res_status_json 200
         (JArr (map member_json
                  [member_row Sample.ann Sample.at10;
                   member_row Sample.bob Sample.at20;
                   member_row Sample.cyd Sample.at30]))).
Proof. vm_compute. done. Qed.

(** The guard of [leaveCommunity] reads the second component of the reply.
    A reply made of rows and a count of zero would pass it; the reply to the
    typed DELETE, which has no second component, does not. *)
Example no_rows_affected_needs_count :
  no_rows_affected [JArr []; JNum 0] = true /\ no_rows_affected [] = false.
Proof. done. Qed.

(** An outage during a join is answered by the internal error and leaves the
    store as it was. *)
Example join_during_outage :
  let r := run (joinCommunity (Sample.ann_req 1)) (Sample.world_down Sample.db) in
  r.1 = inr internal_error /\ w_db r.2 = Sample.db.
Proof. vm_compute. done. Qed.


Lemma createCommunity_rejects_witness :
  run (createCommunity (Sample.ann_req 0)) (Sample.world Sample.db) =
    (inr (res_status_json 403 (error_body "Only admins can create communities")),
     Sample.world Sample.db) /\
  run (createCommunity (Sample.admin_req (mkReqBody (Some "") (Some "rust") None)))
      (Sample.world Sample.db) =
    (inr (res_status_json 400 (error_body "Community name is required")),
     Sample.world Sample.db).
Proof.
  split.
  - by apply (proj1 (createCommunity_rejects (Sample.ann_req 0) (Sample.world Sample.db))).
  - apply (proj2 (createCommunity_rejects
                    (Sample.admin_req (mkReqBody (Some "") (Some "rust") None))
                    (Sample.world Sample.db))); [reflexivity|by right].
Defined.

Lemma getCommunityMembers_sorted_witness :
  (run (getCommunityMembers (Sample.ann_req 1)) (Sample.world Sample.db_joined)).1 =
    inr {| status := 200;
           body := JArr [JObj [("id", JNum 7); ("name", JStr "Ann");
                               ("email", JStr "ann@example.org");
                               ("profile_picture", JNull); ("joined_at", JNum 10)];
                         JObj [("id", JNum 8); ("name", JStr "Bob");
                               ("email", JStr "bob@example.org");
                               ("profile_picture", JStr "bob.png");
                               ("joined_at", JNum 20)];
                         JObj [("id", JNum 9); ("name", JStr "Cyd");
                               ("email", JStr "cyd@example.org");
                               ("profile_picture", JNull); ("joined_at", JNum 30)]] |}.
Proof.
  destruct (getCommunityMembers_sorted (Sample.ann_req 1)
              (Sample.world Sample.db_joined) 1 Sample.rustaceans)
    as (listed & Hrun & Husers & _ & _ & Horder).
  - apply sample_world_healthy.
  - apply sample_db_joined_ok.
  - reflexivity.
  - reflexivity.
  - rewrite Hrun. clear Hrun.
    assert (snd <$> listed = [Sample.at10; Sample.at20; Sample.at30]) as Hsnd.
    { apply Horder.
      - change (filter _ (memberships _)) with [Sample.at20; Sample.at30; Sample.at10].
        apply Permutation_cons_append.
      - repeat constructor; cbn; lia. }
    clear Horder.
    destruct listed as [|[u1 m1] [|[u2 m2] [|[u3 m3] [|]]]]; try discriminate Hsnd.
    cbn in Hsnd. injection Hsnd as -> -> ->.
    rewrite !Forall_cons in Husers.
    destruct Husers as ([H1 E1] & [H2 E2] & [H3 E3] & _).
    cbn in H1, H2, H3, E1, E2, E3.
    rewrite !elem_of_cons, elem_of_nil in H1, H2, H3.
    destruct H1 as [->|[->|[->|[]]]]; try discriminate E1.
    destruct H2 as [->|[->|[->|[]]]]; try discriminate E2.
    destruct H3 as [->|[->|[->|[]]]]; try discriminate E3.
    reflexivity.
Defined.

(** C5 does not hold for every id: joining at an id past the range of the
    [INTEGER] key, which no community has, is answered 500 and not 404. *)
Lemma joinCommunity_id_out_of_range :
  let w := Sample.world Sample.db in
  let r := run (joinCommunity (Sample.ann_req 2147483648)) w in
  ~ Exists (has_id 2147483648) (communities (w_db w)) /\
  ~ next_fails w /\
  r.1 = inr (res_status_json 500 (error_body "Internal server error")) /\
  r.1 <> inr (res_status_json 404 (error_body "Community not found")).
Proof.
  split_and!.
  - cbn. intros Hex. inversion Hex as [? ? Hid|? ? Hnil]; [done|inversion Hnil].
  - unfold next_fails. cbn. discriminate.
  - reflexivity.
  - cbn. discriminate.
Qed.

Lemma joinCommunity_unknown_community_witness :
  let w := Sample.world Sample.db_joined in
  let r := run (joinCommunity (Sample.ann_req 2)) w in
  let r' := run (joinCommunity (Sample.word_req "user")) w in
  (r.1 = inr (res_status_json 404 (error_body "Community not found")) /\
   w_trace r.2 = w_trace w ++ [(CommunityFindByPk (IdNumber 2), None)] /\
   w_db r.2 = w_db w) /\
  (r'.1 = inr (res_status_json 500 (error_body "Internal server error")) /\
   w_db r'.2 = w_db w).
Proof.
  intros w r r'. split.
  - destruct (joinCommunity_unknown_community (Sample.ann_req 2) w)
      as (Hmissing & _ & Hstore); [unfold next_fails; cbn; discriminate|].
    destruct (Hmissing 2) as [Hr Ht]; [reflexivity|unfold is_integer; lia|reflexivity|].
    split_and!; [exact Hr|exact Ht|].
    apply Hstore. intros cid [= <-]. reflexivity.
  - destruct (joinCommunity_unknown_community (Sample.word_req "user") w)
      as (_ & Hbad & Hstore); [unfold next_fails; cbn; discriminate|].
    destruct (Hbad I) as [Hr _]. split; [exact Hr|].
    apply Hstore. intros cid [=].
Defined.

(** C6 does not hold for every id: fetching at an id past the range of the
    [INTEGER] key, or at a segment that is no number, finds no community and
    is answered 500, not 404. *)
Lemma getCommunityById_id_not_integer :
  let w := Sample.world Sample.db in
  let r := run (getCommunityById (Sample.ann_req 2147483648)) w in
  let r' := run (getCommunityById (Sample.word_req "user")) w in
  ~ Exists (has_id 2147483648) (communities (w_db w)) /\
  ~ next_fails w /\
  r.1 = inr (res_status_json 500 (error_body "Internal server error")) /\
  r.1 <> inr (res_status_json 404 (error_body "Community not found")) /\
  r'.1 = inr (res_status_json 500 (error_body "Internal server error")) /\
  r'.1 <> inr (res_status_json 404 (error_body "Community not found")).
Proof.
  split_and!.
  - cbn. intros Hex. inversion Hex as [? ? Hid|? ? Hnil]; [done|inversion Hnil].
  - unfold next_fails. cbn. discriminate.
  - reflexivity.
  - cbn. discriminate.
  - reflexivity.
  - cbn. discriminate.
Qed.

Lemma getCommunityById_spec_witness :
  (run (getCommunityById (Sample.ann_req 1)) (Sample.world Sample.db)).1 =
    inr (res_status_json 200
           (JObj [("id", JNum 1); ("name", JStr "Rustaceans");
                  ("language", JStr "rust"); ("description", JNull)])) /\
  (run (getCommunityById (Sample.ann_req 2)) (Sample.world Sample.db)).1 =
    inr (res_status_json 404 (error_body "Community not found")) /\
  (run (getCommunityById (Sample.word_req "user")) (Sample.world Sample.db)).1 =
    inr (res_status_json 500 (error_body "Internal server error")).
Proof.
  split_and!.
  - destruct (getCommunityById_spec (Sample.ann_req 1) (Sample.world Sample.db))
      as (_ & Hfound & _); [unfold next_fails; cbn; discriminate|].
    apply (Hfound Sample.rustaceans);
      [|by left|unfold is_integer; cbn; lia|reflexivity].
    cbn. repeat constructor. by intros ?%elem_of_nil.
  - destruct (getCommunityById_spec (Sample.ann_req 2) (Sample.world Sample.db))
      as (Hmissing & _ & _); [unfold next_fails; cbn; discriminate|].
    apply (Hmissing 2); [reflexivity|unfold is_integer; lia|].
    cbn. intros Hex.
    inversion Hex as [? ? Hid|? ? Hnil]; [done|inversion Hnil].
  - destruct (getCommunityById_spec (Sample.word_req "user") (Sample.world Sample.db))
      as (_ & _ & Hbad & _); [unfold next_fails; cbn; discriminate|].
    apply Hbad. exact I.
Defined.


(** Both requests of the sample interleaving finish, answered 200, with one row. *)
Example concurrent_joins_finish :
  let final := run_schedule [0; 1; 1; 0; 0; 1; 1; 0; 1; 0; 0; 1]%nat
                 (joinCommunity <$> [Sample.ann_req 1; Sample.ann_req 1],
                  Sample.world Sample.db) in
  final.1 = [Ret joined_response; Ret joined_response] /\
  memberships (w_db final.2) = [mkMembership 1 7 1 100].
Proof. vm_compute. done. Qed.

Lemma error_responses_witness :
  exists resp,
    (run (handler OpLeaveCommunity (Sample.ann_req 1)) (Sample.world_down Sample.db)).1
      = inr resp /\
    status resp ∈ [200; 201; 400; 403; 404; 500] /\
    (400 <= status resp -> exists msg, body resp = JObj [("error", JStr msg)]) /\
    (Exists failed (events_of (handler OpLeaveCommunity (Sample.ann_req 1))
                      (Sample.world_down Sample.db)) ->
     resp = res_status_json 500 (JObj [("error", JStr "Internal server error")])) /\
    (status resp = 500 ->
     Exists failed (events_of (handler OpLeaveCommunity (Sample.ann_req 1))
                      (Sample.world_down Sample.db))).
Proof.
  apply (error_responses OpLeaveCommunity (Sample.ann_req 1)
           (Sample.world_down Sample.db)).
Defined.

(** C9 does not hold as a whole: leaving at an id that no community has is
    answered 200, not 404 "Membership not found"; and joining at an id past
    the range of the [INTEGER] key is answered 500, not 404 "Community not
    found". *)
Lemma leaveCommunity_unknown_community_answered_200 :
  let w := Sample.world Sample.db_joined in
  healthy w /\ db_ok (w_db w) /\
  ~ Exists (has_id 2) (communities (w_db w)) /\
  (run (leaveCommunity (Sample.ann_req 2)) w).1 =
    inr (res_status_json 200 (message_body "Successfully left community")) /\
  (run (leaveCommunity (Sample.ann_req 2)) w).1 <>
    inr (res_status_json 404 (error_body "Membership not found")) /\
  ~ Exists (has_id 2147483648) (communities (w_db w)) /\
  (run (joinCommunity (Sample.ann_req 2147483648)) w).1 =
    inr (res_status_json 500 (error_body "Internal server error")).
Proof.
  split_and!.
  - apply sample_world_healthy.
  - apply sample_db_joined_ok.
  - cbn. intros Hex. inversion Hex as [? ? Hid|? ? Hnil]; [done|inversion Hnil].
  - reflexivity.
  - cbn. discriminate.
  - cbn. intros Hex. inversion Hex as [? ? Hid|? ? Hnil]; [done|inversion Hnil].
  - reflexivity.
Qed.

Lemma leaveCommunity_no_existence_check_witness :
  let w := Sample.world Sample.db_joined in
  (forall resp, (run (leaveCommunity (Sample.ann_req 2)) w).1 = inr resp ->
     body resp <> error_body "Community not found") /\
  (run (joinCommunity (Sample.ann_req 2)) w).1 =
    inr (res_status_json 404 (error_body "Community not found")) /\
  (run (getCommunityMembers (Sample.ann_req 2)) w).1 =
    inr (res_status_json 404 (error_body "Community not found")).
Proof.
  intros w.
  destruct (leaveCommunity_no_existence_check (Sample.ann_req 2))
    as (_ & _ & _ & Hrun).
  destruct (Hrun w) as [Hleave Hothers]; [apply sample_world_healthy|].
  split; [exact Hleave|].
  apply (Hothers 2); [reflexivity|unfold is_integer; lia|].
  cbn. intros Hex. inversion Hex as [? ? Hid|? ? Hnil]; [done|inversion Hnil].
Defined.

Lemma join_leave_frame_witness :
  let w := Sample.world Sample.db_joined in
  untouched_outside 8 1 (w_db w) (w_db (run (joinCommunity (Sample.bob_req 1)) w).2) /\
  untouched_outside 8 1 (w_db w) (w_db (run (leaveCommunity (Sample.bob_req 1)) w).2) /\
  forall b,
    joinCommunity (mkRequest (mkReqUser 8 "user") (IdNumber 1) b)
      = joinCommunity (Sample.bob_req 1) /\
    leaveCommunity (mkRequest (mkReqUser 8 "user") (IdNumber 1) b)
      = leaveCommunity (Sample.bob_req 1).
Proof.
  intros w.
  destruct (join_leave_frame (Sample.bob_req 1) w) as [Hframe Hbody].
  destruct (Hframe 1) as [Hjoin Hleave]; [by left|].
  split_and!; [exact Hjoin|exact Hleave|exact Hbody].
Defined.

(** Bob leaving removes his row and nothing else. *)
Example bob_leaves :
  memberships (w_db (run (leaveCommunity (Sample.bob_req 1))
                       (Sample.world Sample.db_joined)).2)
  = [Sample.at30; Sample.at10].
Proof. vm_compute. done. Qed.

(** * Further properties of the controller *)

(** ** Statements issued and failures reported *)

Lemma events_of_spec {A} (p : Prog A) w :
  w_trace (run p w).2 = w_trace w ++ events_of p w.
Proof.
  unfold events_of.
  assert (exists evs, w_trace (run p w).2 = w_trace w ++ evs) as [evs ->].
  { revert w. induction p as [a|e|q k IH|entry k IH]; intros w; cbn.
    - exists []. by rewrite app_nil_r.
    - exists []. by rewrite app_nil_r.
    - pose proof (exec_trace q w) as Ht. destruct (exec q w) as [o w'].
      destruct (IH o w') as [evs ->]. cbn in Ht. rewrite Ht, <- app_assoc. by eexists.
    - apply (IH (write_log entry w)). }
  by rewrite drop_app_length.
Qed.

(** How the events of a run start: with the statement the program begins with. *)
Lemma events_of_call {A} q (k : Outcome q -> Prog A) w :
  events_of (Call q k) w =
    (q, failure (exec q w).1) :: events_of (k (exec q w).1) (exec q w).2.
Proof.
  apply (inj (app (w_trace w))). rewrite <- events_of_spec. cbn.
  pose proof (exec_trace q w) as Ht. destruct (exec q w) as [o w']. cbn in *.
  rewrite events_of_spec, Ht, <- app_assoc. done.
Qed.

Lemma events_of_log {A} entry (k : Prog A) w :
  events_of (Log entry k) w = events_of k (write_log entry w).
Proof. done. Qed.

Lemma events_of_silent {A} (p : Prog A) w :
  only (fun _ => False) p -> events_of p w = [].
Proof.
  revert w. induction p as [a|e|q k IH|entry k IH]; intros w Hp; cbn in Hp.
  - unfold events_of. cbn. apply drop_all.
  - unfold events_of. cbn. apply drop_all.
  - by destruct Hp.
  - rewrite events_of_log. by apply IH.
Qed.

Lemma events_bound {A} (p : Prog A) n w :
  calls_at_most n p -> (length (events_of p w) <= n)%nat.
Proof.
  revert n w. induction p as [a|e|q k IH|entry k IH]; intros n w Hp.
  - unfold events_of. cbn. rewrite drop_all. cbn. lia.
  - unfold events_of. cbn. rewrite drop_all. cbn. lia.
  - rewrite events_of_call. destruct n as [|n]; [done|]. cbn in Hp |- *.
    specialize (IH (exec q w).1 n (exec q w).2 (Hp _)). lia.
  - rewrite events_of_log. by apply IH.
Qed.

Lemma events_fail_fast {A} (p : Prog A) w pre ev post :
  fail_fast p -> events_of p w = pre ++ ev :: post -> failed ev -> post = [].
Proof.
  revert w pre. induction p as [a|e|q k IH|entry k IH]; intros w pre Hp Hev Hfail.
  - unfold events_of in Hev. cbn in Hev. rewrite drop_all in Hev. by destruct pre.
  - unfold events_of in Hev. cbn in Hev. rewrite drop_all in Hev. by destruct pre.
  - rewrite events_of_call in Hev. destruct Hp as [Hsilent Hok].
    destruct (exec q w).1 as [e|r] eqn:E.
    + rewrite events_of_silent in Hev by apply Hsilent.
      destruct pre as [|x [|y pre]]; by inversion Hev.
    + destruct pre as [|x pre]; cbn in Hev.
      * injection Hev as <- _. by destruct Hfail.
      * injection Hev as _ Hev.
        eapply (IH (inr r)); [apply Hok|exact Hev|done].
  - rewrite events_of_log in Hev. by eapply IH.
Qed.

Lemma handler_calls_at_most op req : calls_at_most 3 (handler op req).
Proof.
  destruct op; cbn -[calls_at_most];
    unfold createCommunity, getAllCommunities, getCommunityById, joinCommunity,
      leaveCommunity, getCommunityMembers, getUserCommunities,
      createUserCommunityModel;
    walk_program; auto.
Qed.

Lemma handler_fail_fast op req : fail_fast (handler op req).
Proof.
  destruct op; cbn -[fail_fast];
    unfold createCommunity, getAllCommunities, getCommunityById, joinCommunity,
      leaveCommunity, getCommunityMembers, getUserCommunities,
      createUserCommunityModel;
    walk_program; auto.
Qed.

(** X1. No operation issues more than three statements, and none issues a
    statement after one has failed: a failed statement is the last of the run
    (nothing is retried). *)
Theorem statements_bounded_no_retry op req w :
  (length (events_of (handler op req) w) <= 3)%nat /\
  forall pre ev post,
    events_of (handler op req) w = pre ++ ev :: post -> failed ev -> post = [].
Proof.
  split.
  - apply events_bound, handler_calls_at_most.
  - intros pre ev post. apply events_fail_fast, handler_fail_fast.
Qed.

Lemma is_report_spec e entry :
  is_report e entry = true <->
  level entry = Error /\ exists txt, parts entry = [LText txt; LErr e].
Proof.
  unfold is_report. destruct entry as [l ps]; cbn. split.
  - destruct l; try done. destruct ps as [|[txt| | |] [|[| |e'|] [|]]]; try done.
    intros ->%bool_decide_eq_true. split; [done|by eexists].
  - intros [-> [txt ->]]. by apply bool_decide_eq_true.
Qed.

(** After a failure a reporting program issues nothing, and if it returns the
    last line of the log is the report of the failure. *)
Lemma run_reports_failed e b p w resp :
  reports (Some e) b p ->
  (b = true -> exists entry, last (w_log w) = Some entry /\ is_report e entry = true) ->
  (run p w).1 = inr resp ->
  events_of p w = [] /\
  exists entry, last (w_log (run p w).2) = Some entry /\ is_report e entry = true.
Proof.
  revert b w. induction p as [r|e'|q k IH|entry k IH]; intros b w Hp Hlog Hret; cbn in *.
  - split; [apply drop_all|]. by apply Hlog.
  - done.
  - by destruct Hp.
  - rewrite events_of_log.
    apply (IH (is_report e entry) (write_log entry w)); [done| |done].
    intros Hrep. exists entry. cbn. by rewrite last_snoc.
Qed.

Lemma run_reports p w resp q e :
  reports None false p ->
  (run p w).1 = inr resp ->
  (q, Some e) ∈ events_of p w ->
  exists entry, last (w_log (run p w).2) = Some entry /\ is_report e entry = true.
Proof.
  revert w. induction p as [r|e'|q' k IH|entry k IH]; intros w Hp Hret Hin.
  - unfold events_of in Hin. cbn in Hin. rewrite drop_all in Hin. by apply elem_of_nil in Hin.
  - done.
  - rewrite events_of_call in Hin. destruct Hp as (_ & Hok & Herr). cbn in Hret |- *.
    destruct (exec q' w) as [[e0|r] w'] eqn:E; cbn in *.
    + destruct (run_reports_failed e0 false (k (inl e0)) w' resp (Herr e0))
        as [Hnil Hlast]; [done|done|].
      rewrite Hnil in Hin. apply list_elem_of_singleton in Hin. by injection Hin as -> ->.
    + apply elem_of_cons in Hin as [[=]|Hin]. by apply (IH (inr r)).
  - rewrite events_of_log in Hin. cbn in Hret |- *.
    apply (IH (write_log entry w)); done.
Qed.

Lemma handler_reports op req : reports None false (handler op req).
Proof.
  destruct op; cbn -[reports];
    unfold createCommunity, getAllCommunities, getCommunityById, joinCommunity,
      leaveCommunity, getCommunityMembers, getUserCommunities,
      createUserCommunityModel;
    walk_program; auto; by destruct e.
Qed.

Lemma handler_returns op req w : exists resp, (run (handler op req) w).1 = inr resp.
Proof.
  destruct (run_behaves (handler op req) w false (handler_behaves op req))
    as (resp & _ & E & _). by exists resp.
Qed.

(** X2. Whenever an operation answers 500, a statement failed, and the last
    line the operation logged is an error-level line carrying that very
    failure: the detail kept out of the response is in the log. *)
Theorem internal_error_is_logged op req w resp :
  (run (handler op req) w).1 = inr resp ->
  status resp = 500 ->
  exists q e entry txt,
    (q, Some e) ∈ events_of (handler op req) w /\
    last (w_log (run (handler op req) w).2) = Some entry /\
    level entry = Error /\ parts entry = [LText txt; LErr e].
Proof.
  intros Hret H500.
  destruct (run_behaves (handler op req) w false (handler_behaves op req))
    as (resp' & evs & E1 & E2 & E3).
  rewrite Hret in E1. injection E1 as <-.
  assert (events_of (handler op req) w = evs) as Hevs.
  { unfold events_of. by rewrite E2, drop_app_length. }
  destruct (decide _) as [[?|Hex]|Hno]; [done| |].
  - apply Exists_exists in Hex as ([q o] & Hin & [e He]). cbn in He. subst o.
    rewrite <- Hevs in Hin.
    destruct (run_reports _ w resp q e (handler_reports op req) Hret Hin)
      as (entry & Hlast & [Hlevel [txt Hparts]]%is_report_spec).
    by exists q, e, entry, txt.
  - destruct E3 as [Hstatus _]. rewrite H500, !elem_of_cons, elem_of_nil in Hstatus.
    intuition discriminate.
Qed.

(** ** Creating the membership table *)

Lemma ensure_table_spec d :
  is_Some (user_communities (ensure_table d)) /\
  memberships (ensure_table d) = memberships d /\
  communities (ensure_table d) = communities d /\
  communities_seq (ensure_table d) = communities_seq d /\
  users (ensure_table d) = users d /\
  current_timestamp (ensure_table d) = current_timestamp d /\
  (is_Some (user_communities d) -> ensure_table d = d).
Proof.
  unfold ensure_table, memberships. cbn.
  destruct (user_communities d) as [t|] eqn:E; cbn.
  - rewrite E. split_and!; by eauto.
  - split_and!; done.
Qed.

Lemma db_exec_ensure d : db_exec CreateUserCommunities d = (inr tt, ensure_table d).
Proof. unfold ensure_table. cbn. by destruct (user_communities d). Qed.

(** X3. [createUserCommunityModel], when its statement reaches the store:
    it returns, the table exists afterwards, and the membership rows, the
    communities and the users are as before; if the table already existed the
    store is exactly as before, so calling it again changes nothing. *)
Theorem createUserCommunityModel_idempotent w :
  ~ next_fails w ->
  let r := run createUserCommunityModel w in
  r.1 = inr tt /\
  is_Some (user_communities (w_db r.2)) /\
  memberships (w_db r.2) = memberships (w_db w) /\
  communities (w_db r.2) = communities (w_db w) /\
  users (w_db r.2) = users (w_db w) /\
  (is_Some (user_communities (w_db w)) -> w_db r.2 = w_db w) /\
  w_db (run createUserCommunityModel r.2).2 = w_db r.2.
Proof.
  intros Hn. unfold createUserCommunityModel. cbn -[exec].
  rewrite exec_reaches, db_exec_ensure by done. cbn -[exec].
  destruct (ensure_table_spec (w_db w)) as (Hsome & Hm & Hc & _ & Hu & _ & Hsame).
  split_and!; try done.
  pose proof (exec_cases CreateUserCommunities
    {| w_db := ensure_table (w_db w); w_faults := tail (w_faults w);
       w_trace := w_trace w ++ [(CreateUserCommunities, None)];
       w_log := w_log w ++
         [{| level := Info; parts := [LText "UserCommunity table checked/created"] |}] |})
    as Hcases.
  rewrite db_exec_ensure in Hcases.
  destruct (exec CreateUserCommunities _) as [[e|[]] w2]; cbn in Hcases |- *.
  - by destruct Hcases as [[[=] _]|[_ ->]].
  - destruct Hcases as [[_ ->]|[_ ->]]; [|done].
    by apply ensure_table_spec.
Qed.

(** X4. [createUserCommunityModel], when its statement fails: the failure is
    logged at error level and thrown again unchanged, and the store is as
    before. *)
Theorem createUserCommunityModel_rethrows w :
  next_fails w ->
  let r := run createUserCommunityModel w in
  r.1 = inl ConnectionLost /\
  w_db r.2 = w_db w /\
  w_log r.2 = w_log w ++
    [{| level := Error;
        parts := [LText "Error creating UserCommunity table:"; LErr ConnectionLost] |}].
Proof.
  unfold next_fails, createUserCommunityModel. intros Hn. cbn -[exec].
  unfold exec. destruct (w_faults w) as [|[] fs]; cbn in *; done.
Qed.

(** ** Creating and reading communities *)









(** ** What each operation leaves alone *)

#[local] Instance same_tables_preorder : PreOrder same_tables.
Proof.
  split.
  - by intros d.
  - intros d1 d2 d3 (H1 & H2 & H3 & H4) (G1 & G2 & G3 & G4).
    unfold same_tables. by rewrite G1, G2, G3, G4.
Qed.

Lemma read_statement_same_tables q d :
  read_statement q -> same_tables d (db_exec q d).2.
Proof.
  destruct q; intros Hq; try done.
  - rewrite db_exec_ensure. cbn.
    destruct (ensure_table_spec d) as (_ & ? & ? & ? & ? & _). by split_and!.
  - cbn -[integer_param]. by destruct (integer_param id).
  - cbn -[integer_param]. destruct (integer_param communityId); [done|].
    by destruct (user_communities d).
  - cbn. by destruct (user_communities d).
Qed.

Lemma read_only_handler op req :
  op <> OpCreateCommunity -> ~ writes_memberships op ->
  only read_statement (handler op req).
Proof.
  unfold writes_memberships. intros Hc Hw.
  destruct op; try done; try (destruct Hw; by auto); cbn -[only];
    unfold getAllCommunities, getCommunityById, getCommunityMembers,
      getUserCommunities, createUserCommunityModel;
    walk_program; auto.
Qed.

Lemma create_frame req w :
  users (w_db (run (createCommunity req) w).2) = users (w_db w) /\
  user_communities (w_db (run (createCommunity req) w).2) = user_communities (w_db w) /\
  exists added,
    communities (w_db (run (createCommunity req) w).2) = communities (w_db w) ++ added /\
    (length added <= 1)%nat.
Proof.
  assert (forall d, users d = users d /\ user_communities d = user_communities d /\
            exists added, communities d = communities d ++ added /\ (length added <= 1)%nat)
    as Hsame.
  { intros d. split_and!; try done. exists []. rewrite app_nil_r. split; [done|cbn; lia]. }
  unfold createCommunity.
  destruct (negb (String.eqb _ _)); [apply Hsame|].
  destruct (negb (truthy _)); [apply Hsame|]. cbn -[exec].
  pose proof (exec_cases (CommunityCreate (default "" (body_name (req_body req)))
                (body_language (req_body req)) (body_description (req_body req))) w)
    as Hcases.
  destruct (exec _ w) as [[e|c] w']; cbn -[db_exec] in Hcases |- *.
  - destruct Hcases as [[_ ->]|[_ ->]]; [|apply Hsame].
    cbn. unfold community_create.
    repeat (destruct (decide _); cbn); split_and!; try done;
      first [ exists []; rewrite app_nil_r; split; [done|cbn; lia]
            | eexists; split; [done|]; cbn; lia ].
  - destruct Hcases as [[_ ->]|[_ ->]]; [|apply Hsame].
    cbn. unfold community_create.
    repeat (destruct (decide _); cbn); split_and!; try done;
      first [ exists []; rewrite app_nil_r; split; [done|cbn; lia]
            | eexists; split; [done|]; cbn; lia ].
Qed.

(** X7. Whatever the operation, the request and the outages: the users are
    never changed; no stored community is changed or removed, the communities
    afterwards being those before, followed by at most one new one, and by
    none unless the operation is [createCommunity]; and the membership rows are
    changed by no operation other than joining and leaving. *)
Theorem operations_frame op req w :
  let d := w_db w in
  let d' := w_db (run (handler op req) w).2 in
  users d' = users d /\
  (exists added,
     communities d' = communities d ++ added /\
     (length added <= 1)%nat /\
     (op <> OpCreateCommunity -> added = [])) /\
  (~ writes_memberships op -> memberships d' = memberships d).
Proof.
  intros d d'. subst d d'.
  destruct (decide (op = OpCreateCommunity)) as [->|Hc].
  { cbn -[createCommunity]. destruct (create_frame req w) as (Hu & Ht & added & Ha & Hlen).
    split_and!; [done|by exists added|].
    intros _. unfold memberships. by rewrite Ht. }
  destruct (decide (writes_memberships op)) as [Hw|Hw].
  - assert (untouched_outside (user_id (req_user req))
              (match req_params_id req with IdNumber c => c | IdWord _ => 0 end)
              (w_db w) (w_db (run (handler op req) w).2)) as (Hcs & _ & Hu & _).
    { apply (run_only _ (membership_statement (user_id (req_user req)) (req_params_id req))).
      { intros q d Hq. eapply membership_statement_untouched; [|exact Hq].
        destruct (req_params_id req); eauto. }
      destruct Hw as [-> | ->]; cbn -[only];
        unfold joinCommunity, leaveCommunity, createUserCommunityModel, membership_statement;
        walk_program; auto. }
    split_and!; [done| |done].
    exists []. rewrite app_nil_r. split_and!; [done|cbn; lia|done].
  - assert (same_tables (w_db w) (w_db (run (handler op req) w).2)) as (Hcs & _ & Hu & Hm).
    { apply (run_only _ read_statement);
        [intros; by apply read_statement_same_tables|by apply read_only_handler]. }
    split_and!; [done| |done].
    exists []. rewrite app_nil_r. split_and!; [done|cbn; lia|done].
Qed.

(** ** The communities of a user *)

Lemma find_by_pk_cons id c cs :
  find_by_pk id (c :: cs) = if decide (c_id c = id) then Some c else find_by_pk id cs.
Proof.
  unfold find_by_pk. cbn. unfold has_id at 1.
  destruct (decide (c_id c = id)); [done|].
  by destruct (list_find _ cs) as [[]|].
Qed.

Lemma join_one_community cs m u :
  NoDup (c_id <$> cs) ->
  cs ≫= (fun c => if decide (c_id c = m_community_id m /\ m_user_id m = u)
                  then [c] else [])
  = if decide (of_user u m) then option_list (community_of cs m) else [].
Proof.
  unfold community_of, of_user.
  induction cs as [|c cs IH]; intros Hnd.
  - by destruct (decide _).
  - rewrite fmap_cons, NoDup_cons in Hnd. destruct Hnd as [Hc Hnd].
    rewrite bind_cons, IH, find_by_pk_cons by done.
    destruct (decide (m_user_id m = u)) as [Hu|Hu].
    + destruct (decide (c_id c = m_community_id m)) as [Hid|Hid].
      * rewrite decide_True by done. cbn. f_equal.
        assert (find_by_pk (m_community_id m) cs = None) as ->; [|done].
        apply find_by_pk_None. intros (c' & Hin & Hc')%Exists_exists.
        apply Hc. rewrite Hid, <- Hc'. by apply list_elem_of_fmap_2.
      * rewrite decide_False by tauto. done.
    + rewrite decide_False by tauto. done.
Qed.

(** The join behind [SelectUserCommunities]: one community per membership of
    the user whose community is stored. *)
Lemma select_user_communities_perm cs ms u :
  NoDup (c_id <$> cs) ->
  select_user_communities cs ms u ≡ₚ omap (community_of cs) (filter (of_user u) ms).
Proof.
  intros Hnd. unfold select_user_communities.
  rewrite (bind_swap (fun c m => if decide (c_id c = m_community_id m /\ m_user_id m = u)
                                 then [c] else []) cs ms).
  induction ms as [|m ms IH]; [done|].
  rewrite bind_cons, IH, join_one_community, filter_cons by done.
  destruct (decide (of_user u m)); [|done].
  cbn. by destruct (community_of cs m).
Qed.

Lemma elem_of_select_user_communities cs ms u c :
  c ∈ select_user_communities cs ms u <-> c ∈ cs /\ Exists (is_pair u (c_id c)) ms.
Proof.
  unfold select_user_communities. rewrite list_elem_of_bind, Exists_exists. split.
  - intros (c' & (m & Hc & Hm)%list_elem_of_bind & Hin).
    destruct (decide _) as [[Hid Hu]|]; [|by apply elem_of_nil in Hc].
    apply list_elem_of_singleton in Hc as ->.
    split; [done|]. exists m. by split.
  - intros (Hin & m & Hm & Hu & Hid). exists c. split; [|done].
    apply list_elem_of_bind. exists m. split; [|done].
    rewrite decide_True by done. by left.
Qed.

Lemma community_of_id cs m c : community_of cs m = Some c -> c_id c = m_community_id m.
Proof. unfold community_of. by intros [_ ?]%find_by_pk_Some. Qed.

(** [UNIQUE(user_id, community_id)]: the memberships of one user are in
    different communities. *)
Lemma user_memberships_distinct (ms : list Membership) u :
  NoDup (pair_of <$> ms) -> NoDup (m_community_id <$> filter (of_user u) ms).
Proof.
  induction ms as [|m ms IH]; [constructor|].
  rewrite fmap_cons, NoDup_cons. intros [Hm Hnd]. rewrite filter_cons.
  destruct (decide (of_user u m)) as [Hu|Hu]; [|by apply IH].
  rewrite fmap_cons. apply NoDup_cons. split; [|by apply IH].
  intros (m' & Hid & [Hu' Hin]%list_elem_of_filter)%list_elem_of_fmap.
  apply Hm. apply list_elem_of_fmap. exists m'. split; [|done].
  unfold pair_of, of_user in *. congruence.
Qed.

Lemma omap_community_of_nodup cs (ms : list Membership) :
  NoDup (m_community_id <$> ms) -> NoDup (omap (community_of cs) ms).
Proof.
  induction ms as [|m ms IH]; [constructor|].
  rewrite fmap_cons, NoDup_cons. intros [Hm Hnd]. cbn.
  destruct (community_of cs m) as [c|] eqn:E; [|by apply IH].
  apply NoDup_cons. split; [|by apply IH].
  intros (m' & Hin & E')%list_elem_of_omap. apply Hm.
  apply community_of_id in E, E'. rewrite <- E, E'. by apply list_elem_of_fmap_2.
Qed.

Lemma getUser_run_db req d :
  run_db (getUserCommunities req) d =
    (inr (res_status_json 200
            (JArr (map community_json
                     (select_user_communities (communities d) (memberships d)
                        (user_id (req_user req)))))),
     ensure_table d).
Proof.
  unfold getUserCommunities, createUserCommunityModel. cbn -[db_exec].
  rewrite db_exec_ensure. cbn -[db_exec].
  destruct (ensure_table_spec d) as ([t Et] & Hm & Hc & _).
  cbn. rewrite Et, Hc. unfold memberships in Hm at 1. rewrite Et in Hm. by rewrite Hm.
Qed.

Lemma getUser_run req w :
  healthy w ->
  (run (getUserCommunities req) w).1 =
    inr (res_status_json 200
           (JArr (map community_json
                    (select_user_communities (communities (w_db w)) (memberships (w_db w))
                       (user_id (req_user req)))))) /\
  w_db (run (getUserCommunities req) w).2 = ensure_table (w_db w).
Proof.
  intros Hw. destruct (run_healthy (getUserCommunities req) w Hw) as (E1 & E2 & _).
  by rewrite getUser_run_db in E1, E2.
Qed.

(** X9. [getUserCommunities], when no statement is lost: the answer is 200
    with exactly the stored communities in which the caller has a membership,
    each once, one per membership of the caller; nothing but the existence of
    the membership table changes. *)
Theorem getUserCommunities_spec req w :
  healthy w -> db_ok (w_db w) ->
  let d := w_db w in
  let u := user_id (req_user req) in
  exists cs,
    (run (getUserCommunities req) w).1 =
      inr (res_status_json 200 (JArr (map community_json cs))) /\
    (forall c, c ∈ cs <-> c ∈ communities d /\ Exists (is_pair u (c_id c)) (memberships d)) /\
    NoDup cs /\
    length cs = length (filter (of_user u) (memberships d)) /\
    same_tables d (w_db (run (getUserCommunities req) w).2).
Proof.
  intros Hw Hok d u. subst d u. destruct (getUser_run req w Hw) as [E1 E2].
  set (d := w_db w) in *. set (u := user_id (req_user req)) in *.
  exists (select_user_communities (communities d) (memberships d) u).
  assert (NoDup (c_id <$> communities d)) as Hnd by by destruct Hok.
  pose proof (select_user_communities_perm (communities d) (memberships d) u Hnd) as Hperm.
  assert (NoDup (pair_of <$> memberships d) /\
          Forall (fun m => is_Some (community_of (communities d) m)) (memberships d))
    as [Hpairs Hfk].
  { destruct Hok as (_ & _ & _ & Ht). unfold memberships.
    destruct (user_communities d) as [t|]; [|by split; constructor].
    destruct Ht as (? & _ & _ & _ & Hfk). split; [done|].
    eapply Forall_impl; [exact Hfk|]. cbn. intros m0 Hex. unfold community_of.
    destruct (find_by_pk _ _) eqn:E; [done|by apply find_by_pk_None in E]. }
  split_and!; [done| | | |].
  - apply elem_of_select_user_communities.
  - rewrite Hperm. by apply omap_community_of_nodup, user_memberships_distinct.
  - rewrite Hperm, <- (length_fmap Some), omap_all_some, length_fmap; [done|].
    by apply Forall_filter.
  - rewrite E2. destruct (ensure_table_spec d) as (_ & ? & ? & ? & ? & _). by split_and!.
Qed.

(** ** Joining and leaving, step by step *)

Lemma ensure_table_rows d :
  exists t, user_communities (ensure_table d) = Some t /\ rows t = memberships d /\
    (db_ok d -> table_ok (ensure_table d) t).
Proof.
  destruct (ensure_table_spec d) as ([t Et] & Hm & _).
  exists t. split; [done|]. split.
  - unfold memberships in Hm at 1. by rewrite Et in Hm.
  - intros Hok. pose proof (db_exec_ok CreateUserCommunities d Hok) as Hok'.
    rewrite db_exec_ensure in Hok'. destruct Hok' as (_ & _ & _ & Ht).
    cbn in Ht. by rewrite Et in Ht.
Qed.

(** A join that found its community ends with the insert, on the store with
    the table in place. *)
Lemma join_run_db_insert req d cid c0 :
  req_params_id req = IdNumber cid -> is_integer cid ->
  find_by_pk cid (communities d) = Some c0 ->
  let ins := db_exec (InsertMembership (user_id (req_user req)) (IdNumber cid))
               (ensure_table d) in
  run_db (joinCommunity req) d =
    (inr (match ins.1 with inr _ => joined_response | inl _ => internal_error end),
     ins.2).
Proof.
  intros Hid Hint Hfind ins.
  unfold joinCommunity, createUserCommunityModel. rewrite Hid. cbn -[db_exec].
  rewrite db_exec_find, Hfind by done. cbn -[db_exec].
  rewrite db_exec_ensure. cbn -[db_exec]. fold ins.
  by destruct ins as [[e|[]] d'].
Qed.

Lemma join_run_insert req w cid c0 :
  healthy w ->
  req_params_id req = IdNumber cid -> is_integer cid ->
  find_by_pk cid (communities (w_db w)) = Some c0 ->
  let ins := db_exec (InsertMembership (user_id (req_user req)) (IdNumber cid))
               (ensure_table (w_db w)) in
  (run (joinCommunity req) w).1 =
    inr (match ins.1 with inr _ => joined_response | inl _ => internal_error end) /\
  w_db (run (joinCommunity req) w).2 = ins.2 /\
  healthy (run (joinCommunity req) w).2.
Proof.
  intros Hw Hid Hint Hfind ins.
  destruct (run_healthy (joinCommunity req) w Hw) as (E1 & E2 & Hw').
  rewrite (join_run_db_insert req (w_db w) cid c0 Hid Hint Hfind) in E1, E2.
  done.
Qed.




(** X12. Leaving twice: with no statement lost, a second leave right after a
    first one is answered 200 "Successfully left community" like the first,
    although the first left no row of the pair behind; the second changes no
    membership row. *)
Theorem leave_twice req w cid :
  healthy w ->
  req_params_id req = IdNumber cid -> -2147483648 <= cid <= 2147483647 ->
  let first := run (leaveCommunity req) w in
  let second := run (leaveCommunity req) first.2 in
  first.1 = inr (res_status_json 200 (message_body "Successfully left community")) /\
  ~ Exists (fun m => m_user_id m = user_id (req_user req) /\ m_community_id m = cid)
      (memberships (w_db first.2)) /\
  second.1 = inr (res_status_json 200 (message_body "Successfully left community")) /\
  memberships (w_db second.2) = memberships (w_db first.2).
Proof.
  intros Hw Hid Hint first second. subst first second.
  destruct (run_healthy (leaveCommunity req) w Hw) as (_ & _ & Hw').
  destruct (leave_run req w cid Hw Hid Hint) as [F1 F2].
  destruct (run (leaveCommunity req) w) as [o1 w1]. cbn [fst snd] in F1, F2, Hw' |- *.
  destruct (leave_run req w1 cid Hw' Hid Hint) as [G1 G2]. rewrite G1, G2, F1, F2.
  split_and!; [done| |done|by rewrite filter_twice].
  intros (m & [Hnot _]%list_elem_of_filter & Hm)%Exists_exists. done.
Qed.

(** X13. Joining as a user who is not in [users] (the foreign key of
    [user_id]): the insert fails, the answer is 500 "Internal server error", and
    no membership row is added. *)
Theorem joinCommunity_unknown_user req w cid c0 :
  healthy w -> db_ok (w_db w) ->
  req_params_id req = IdNumber cid ->
  find_by_pk cid (communities (w_db w)) = Some c0 ->
  ~ Exists (is_user (user_id (req_user req))) (users (w_db w)) ->
  let r := run (joinCommunity req) w in
  r.1 = inr (res_status_json 500 (error_body "Internal server error")) /\
  memberships (w_db r.2) = memberships (w_db w).
Proof.
  intros Hw Hok Hpath Hfind Hu r. subst r.
  assert (is_integer cid) as Hint.
  { apply (stored_id_integer (w_db w)); [done|by eapply find_by_pk_exists]. }
  destruct (join_run_insert req w cid c0 Hw Hpath Hint Hfind) as (E1 & E2 & _).
  destruct (ensure_table_rows (w_db w)) as (t & Et & Hrows & Htab).
  destruct (Htab Hok) as (_ & _ & Hfresh & Hfk & _).
  destruct (ensure_table_spec (w_db w)) as (_ & _ & Hcs & _ & Hus & _).
  rewrite Hus in Hfk.
  assert (db_exec (InsertMembership (user_id (req_user req)) (IdNumber cid))
            (ensure_table (w_db w))
          = (inl ForeignKeyViolation,
             set_user_communities (ensure_table (w_db w))
               {| rows := rows t; next_id := next_id t + 1 |})) as Ei.
  { cbn -[integer_param]. rewrite integer_param_number by done.
    unfold insert_membership. cbn. rewrite Et, Hus.
    rewrite decide_False.
    2:{ intros (m & Hin & Hm & _)%Exists_exists.
        rewrite Forall_forall in Hfk. specialize (Hfk m Hin). by rewrite Hm in Hfk. }
    rewrite decide_False.
    2:{ intros (m & Hin & Hid)%Exists_exists.
        rewrite Forall_forall in Hfresh. specialize (Hfresh m Hin). lia. }
    rewrite decide_False by tauto. done. }
  rewrite Ei in E1, E2.
  destruct (run (joinCommunity req) w) as [o1 w1]. cbn [fst snd] in E1, E2 |- *.
  rewrite E1, E2. split; [done|].
  unfold memberships at 1. cbn. done.
Qed.

(** ** Lists after joining and leaving *)




Lemma members_run req w cid c0 :
  healthy w ->
  req_params_id req = IdNumber cid -> is_integer cid ->
  find_by_pk cid (communities (w_db w)) = Some c0 ->
  (run (getCommunityMembers req) w).1 =
    inr (res_status_json 200
           (JArr (map member_json
                    (select_members (users (w_db w)) (memberships (w_db w)) cid)))).
Proof.
  intros Hw Hid Hint Hfind.
  destruct (run_healthy (getCommunityMembers req) w Hw) as (E & _).
  by rewrite (members_run_db req (w_db w) cid c0 Hid Hint Hfind) in E.
Qed.




(** ** Edge cases of listing members *)

(** X16. Listing the members at an id that is a value of the [INTEGER] key
    and that no community has: the answer is 404 "Community not found", a
    warning is logged, the lookup is the only statement issued and the store
    is unchanged (the membership table is not even created). *)
Theorem getCommunityMembers_unknown_community req w cid :
  req_params_id req = IdNumber cid ->
  -2147483648 <= cid <= 2147483647 ->
  find_by_pk cid (communities (w_db w)) = None ->
  ~ next_fails w ->
  let r := run (getCommunityMembers req) w in
  r.1 = inr (res_status_json 404 (error_body "Community not found")) /\
  w_db r.2 = w_db w /\
  w_trace r.2 = w_trace w ++ [(CommunityFindByPk (req_params_id req), None)] /\
  last (w_log r.2) =
    Some {| level := Warn;
            parts := [LText "Community with ID "; LNum cid; LText " not found"] |}.
Proof.
  intros Hid Hint Hfind Hn. unfold getCommunityMembers. cbn -[exec].
  rewrite exec_reaches by done. rewrite Hid, db_exec_find by done. cbn.
  rewrite Hfind. cbn.
  split_and!; try done. by rewrite last_snoc.
Qed.

Lemma select_user_communities_nil cs u : select_user_communities cs [] u = [].
Proof. unfold select_user_communities. cbn. apply bind_nil_const. Qed.

Lemma select_members_nil us c : select_members us [] c = [].
Proof.
  unfold select_members, members_join. cbn.
  by rewrite (bind_nil_const us).
Qed.

(** X17. Before any join ever happened, when the membership table does not
    exist yet, listing is not an error: the handlers create the table first,
    so a user's communities and the members of an existing community (its id
    a value of the [INTEGER] key, as every stored id is) are both answered by
    200 with an empty array. *)
Theorem lists_before_first_join req w :
  healthy w -> user_communities (w_db w) = None ->
  (run (getUserCommunities req) w).1 = inr (res_status_json 200 (JArr [])) /\
  is_Some (user_communities (w_db (run (getUserCommunities req) w).2)) /\
  (forall cid c0,
     req_params_id req = IdNumber cid -> -2147483648 <= cid <= 2147483647 ->
     find_by_pk cid (communities (w_db w)) = Some c0 ->
     (run (getCommunityMembers req) w).1 = inr (res_status_json 200 (JArr []))).
Proof.
  intros Hw Hnone.
  assert (memberships (w_db w) = []) as Hrows by (unfold memberships; by rewrite Hnone).
  destruct (getUser_run req w Hw) as [-> ->]. split_and!.
  - by rewrite Hrows, select_user_communities_nil.
  - apply ensure_table_spec.
  - intros cid c0 Hid Hint Hfind. rewrite (members_run req w cid c0 Hw Hid Hint Hfind).
    by rewrite Hrows, select_members_nil.
Qed.

(** ** The router *)

Lemma find_unique_perm {A} (f : A -> bool) (l l' : list A) :
  (forall x y, x ∈ l -> y ∈ l -> f x = true -> f y = true -> x = y) ->
  l' ≡ₚ l -> List.find f l' = List.find f l.
Proof.
  intros Huniq Hperm.
  destruct (List.find f l) as [x|] eqn:E, (List.find f l') as [y|] eqn:E'; try done.
  - apply find_some in E as [Hx Hfx], E' as [Hy Hfy].
    apply list_elem_of_In in Hx, Hy. rewrite Hperm in Hy.
    f_equal. by apply Huniq.
  - apply find_some in E as [Hx Hfx]. apply list_elem_of_In in Hx.
    rewrite <- Hperm in Hx. apply list_elem_of_In in Hx.
    pose proof (find_none _ _ E' x Hx). congruence.
  - apply find_some in E' as [Hy Hfy]. apply list_elem_of_In in Hy.
    rewrite Hperm in Hy. apply list_elem_of_In in Hy.
    pose proof (find_none _ _ E y Hy). congruence.
Qed.

Lemma router_unambiguous same_segment m path r1 r2 :
  (forall s, same_segment "communities" s = true ->
             same_segment "members" s = true -> False) ->
  r1 ∈ router -> r2 ∈ router ->
  route_matches same_segment m path r1 = true ->
  route_matches same_segment m path r2 = true ->
  r1 = r2.
Proof.
  intros Hdistinct H1 H2. unfold router in H1, H2.
  rewrite !elem_of_cons, elem_of_nil in H1, H2.
  unfold route_matches.
  destruct path as [|s1 [|s2 [|s3 path]]], m;
    destruct H1 as [->|[->|[->|[->|[->|[->|[->|[]]]]]]]];
    destruct H2 as [->|[->|[->|[->|[->|[->|[->|[]]]]]]]];
    cbn; try done; intros Ha Hb;
    repeat match goal with
    | H : _ && _ = true |- _ => apply andb_true_iff in H as [? ?]
    end;
    try discriminate; exfalso; eauto.
Qed.

(** X18. No two routes of the router match the same request, provided the
    literal segments "communities" and "members" are never taken for one
    another: the route that serves a request does not depend on the order in
    which the routes were registered. *)
Theorem dispatch_order_independent same_segment table m path :
  (forall s, same_segment "communities" s = true ->
             same_segment "members" s = true -> False) ->
  table ≡ₚ router ->
  dispatch same_segment table m path = dispatch same_segment router m path.
Proof.
  intros Hdistinct Hperm. unfold dispatch. apply find_unique_perm; [|done].
  intros r1 r2 H1 H2. by apply router_unambiguous.
Qed.

(** X19. A request served without [authMiddleware] reaches a handler that
    reads nothing of [req.user]: the handlers that use the caller's id or
    role are only routed behind the guard that sets them. *)
Theorem unguarded_routes_ignore_user same_segment m path r :
  dispatch same_segment router m path = Some r ->
  authMiddleware ∉ route_guards r ->
  forall req caller,
    handler (route_handler r) (mkRequest caller (req_params_id req) (req_body req))
    = handler (route_handler r) req.
Proof.
  unfold dispatch. intros [Hin _]%find_some Hguard req caller.
  apply list_elem_of_In in Hin. unfold router in Hin.
  rewrite !elem_of_cons, elem_of_nil in Hin.
  destruct Hin as [->|[->|[->|[->|[->|[->|[->|[]]]]]]]]; cbn in Hguard |- *;
    try done; destruct Hguard; by left.
Qed.

(** ** Answers that can be trusted under outages *)

(** X20. Whatever the outages, [createCommunity] stores a community exactly
    when it answers 201: then the community of the answer is the one added,
    after those stored before; with any other answer the communities are
    unchanged. *)
Theorem createCommunity_stores_iff_201 req w :
  let r := run (createCommunity req) w in
  exists resp,
    r.1 = inr resp /\
    (status resp = 201 ->
     exists c, body resp = community_json c /\
       communities (w_db r.2) = communities (w_db w) ++ [c]) /\
    (status resp <> 201 -> communities (w_db r.2) = communities (w_db w)).
Proof.
  cbn zeta. unfold createCommunity.
  destruct (negb (String.eqb _ _)); [cbn; eexists; split_and!; by try intros [=]|].
  destruct (negb (truthy _)); [cbn; eexists; split_and!; by try intros [=]|]. cbn -[exec].
  exec_step exec_cases (CommunityCreate (default "" (body_name (req_body req)))
               (body_language (req_body req)) (body_description (req_body req)))
            w o w' Hcases.
  destruct o as [e|c]; cbn -[db_exec] in Hcases |- *.
  - eexists. split; [reflexivity|]. cbn [status body res_status_json].
    split; [by intros [=]|]. intros _.
    destruct Hcases as [[Ho ->]|[_ ->]]; [|done].
    cbn in Ho |- *. unfold community_create in *.
    by repeat (destruct (decide _); cbn in *).
  - eexists. split; [reflexivity|]. cbn [status body res_status_json].
    split; [|done]. intros _. exists c. split; [done|].
    destruct Hcases as [[Hc ->]|[[=] _]].
    cbn in Hc |- *. unfold community_create in *.
    repeat (destruct (decide _); cbn in * ); try done. by injection Hc as ->.
Qed.

Lemma db_exec_insert_outcome u id d :
  let ins := db_exec (InsertMembership u id) d in
  match ins.1 with
  | inr _ => exists c, id = IdNumber c /\ Exists (is_pair u c) (memberships ins.2)
  | inl _ => memberships ins.2 = memberships d
  end.
Proof.
  cbn -[integer_param].
  destruct (integer_param_cases id) as [(z & -> & Hz & ->)|(_ & e & ->)]; [|done].
  unfold insert_membership, memberships.
  destruct (user_communities d) as [t|] eqn:E; cbn; [|by rewrite E].
  repeat (destruct (decide _); cbn); try done; exists z; (split; [done|]); try done.
  apply Exists_app. right. by left.
Qed.

(** X21. Whatever the outages, a join that answers 200 leaves a membership row
    for the caller and the community in the store, and a join that answers
    anything else leaves the membership rows as they were. *)
Theorem joinCommunity_answer_is_truthful req w :
  let r := run (joinCommunity req) w in
  exists resp,
    r.1 = inr resp /\
    (status resp = 200 ->
     exists cid, req_params_id req = IdNumber cid /\
       Exists (is_pair (user_id (req_user req)) cid) (memberships (w_db r.2))) /\
    (status resp <> 200 -> memberships (w_db r.2) = memberships (w_db w)).
Proof.
  cbn zeta. unfold joinCommunity, createUserCommunityModel. cbn -[exec].
  exec_step exec_cases (CommunityFindByPk (req_params_id req))
    (write_log {| level := Debug;
                  parts := [LText "User ID: "; LNum (user_id (req_user req));
                            LText ", Community ID: "; log_id (req_params_id req)] |} w)
    o1 w1 H1.
  assert (w_db w1 = w_db w) as Hd1.
  { destruct H1 as [[_ ->]|[_ ->]]; [|done].
    cbn -[integer_param]. by destruct (integer_param _). }
  destruct o1 as [e|[c0|]]; cbn -[exec].
  1, 3: eexists; (split; [reflexivity|]); cbn [status body res_status_json];
    (split; [by intros [=]|intros _; by rewrite Hd1]).
  exec_step exec_cases CreateUserCommunities w1 o2 w2 H2.
  assert (memberships (w_db w2) = memberships (w_db w)) as Hd2.
  { destruct H2 as [[_ ->]|[_ ->]]; [|by rewrite Hd1].
    rewrite db_exec_ensure. cbn. rewrite <- Hd1. apply ensure_table_spec. }
  destruct o2 as [e|[]]; cbn -[exec].
  { eexists. split; [reflexivity|]. cbn [status body res_status_json].
    split; [by intros [=]|done]. }
  exec_step exec_cases (InsertMembership (user_id (req_user req)) (req_params_id req))
    (write_log {| level := Info; parts := [LText "UserCommunity table checked/created"] |} w2)
    o3 w3 H3.
  pose proof (db_exec_insert_outcome (user_id (req_user req)) (req_params_id req) (w_db w2))
    as Hins. cbn zeta in Hins.
  destruct o3 as [e|[]]; cbn -[db_exec];
    (eexists; split; [reflexivity|]; cbn [status body res_status_json]).
  - split; [by intros [=]|]. intros _. destruct H3 as [[He ->]|[_ ->]]; [|done].
    cbn [w_db write_log] in He |- *. rewrite <- He in Hins. by rewrite Hins.
  - split; [|done]. intros _. destruct H3 as [[He ->]|[[=] _]].
    cbn [w_db write_log] in He |- *. by rewrite <- He in Hins.
Qed.

Lemma db_exec_delete_outcome u id d :
  let del := db_exec (DeleteMembership u id) d in
  match del.1 with
  | inr result =>
      no_rows_affected result = false /\
      exists c, id = IdNumber c /\
        memberships del.2 = filter (fun m => ~ is_pair u c m) (memberships d)
  | inl _ => memberships del.2 = memberships d
  end.
Proof.
  cbn -[integer_param].
  destruct (integer_param_cases id) as [(z & -> & Hz & ->)|(_ & e & ->)]; [|done].
  unfold delete_membership, memberships.
  destruct (user_communities d) as [t|] eqn:E; cbn; [|by rewrite E].
  split; [done|]. by exists z.
Qed.

(** X22. Whatever the outages, [leaveCommunity] answers 200 or 500 and never
    404.  It answers 200 exactly when the delete ran: the rows of the caller
    and the community are gone, whether there were any or not, and the other
    rows are as before.  With 500 the membership rows are as before. *)
Theorem leaveCommunity_answer_and_rows req w :
  let u := user_id (req_user req) in
  let r := run (leaveCommunity req) w in
  exists resp,
    r.1 = inr resp /\
    status resp ∈ [200; 500] /\
    (status resp = 200 ->
     body resp = message_body "Successfully left community" /\
     exists cid, req_params_id req = IdNumber cid /\
       memberships (w_db r.2) =
         filter (fun m => ~ is_pair u cid m) (memberships (w_db w)) /\
       ~ Exists (fun m => m_user_id m = u /\ m_community_id m = cid)
           (memberships (w_db r.2))) /\
    (status resp <> 200 -> memberships (w_db r.2) = memberships (w_db w)).
Proof.
  intros u. unfold leaveCommunity, createUserCommunityModel. cbn -[exec]. fold u.
  exec_step exec_cases CreateUserCommunities
    (write_log {| level := Debug;
                  parts := [LText "User ID: "; LNum u;
                            LText ", Community ID: "; log_id (req_params_id req)] |} w)
    o1 w1 H1.
  assert (memberships (w_db w1) = memberships (w_db w)) as Hd1.
  { destruct H1 as [[Ho ->]|[-> ->]]; [|done].
    rewrite db_exec_ensure. cbn. apply ensure_table_spec. }
  destruct o1 as [e|[]]; cbn -[exec].
  { eexists. split; [reflexivity|]. cbn [status body res_status_json].
    split; [rewrite !elem_of_cons; auto|]. split; [by intros [=]|done]. }
  exec_step exec_cases (DeleteMembership u (req_params_id req))
    (write_log {| level := Info; parts := [LText "UserCommunity table checked/created"] |} w1)
    o2 w2 H2.
  cbn [w_db write_log] in H2.
  pose proof (db_exec_delete_outcome u (req_params_id req) (w_db w1)) as Hdel.
  cbn zeta in Hdel.
  destruct o2 as [e|result]; cbn -[no_rows_affected].
  - eexists. split; [reflexivity|]. cbn [status body res_status_json].
    split; [rewrite !elem_of_cons; auto|]. split; [by intros [=]|]. intros _.
    destruct H2 as [[He ->]|[_ ->]]; [|done].
    rewrite <- He in Hdel. by rewrite Hdel.
  - destruct H2 as [[He Hd2]|[[=] _]]. rewrite <- He in Hdel.
    destruct Hdel as (-> & cid & Hid & Hrows). cbn -[memberships db_exec].
    eexists. split; [reflexivity|]. cbn [status body res_status_json w_db write_log].
    split; [rewrite !elem_of_cons; auto|]. split; [|done]. intros _.
    split; [done|]. exists cid. rewrite Hd2, Hrows, Hd1. split_and!; [done|done|].
    intros (m & [Hnot _]%list_elem_of_filter & Hm)%Exists_exists. done.
Qed.

(** ** Values the columns do not take *)

(** X23. A path segment that is no value of the [INTEGER] key, because it is
    out of range or no number (as "user" in [GET /user]): with no statement
    lost, each of the four operations that take the id from the path answers
    500 "Internal server error", and communities, users and membership rows
    are as before. *)
Theorem id_not_integer_answered_500 op req w :
  healthy w ->
  op ∈ [OpGetCommunityById; OpJoinCommunity; OpLeaveCommunity; OpGetCommunityMembers] ->
  match req_params_id req with
  | IdNumber z => ~ (-2147483648 <= z <= 2147483647)
  | IdWord _ => True
  end ->
  let r := run (handler op req) w in
  r.1 = inr (res_status_json 500 (error_body "Internal server error")) /\
  communities (w_db r.2) = communities (w_db w) /\
  users (w_db r.2) = users (w_db w) /\
  memberships (w_db r.2) = memberships (w_db w).
Proof.
  intros Hw Hop Hbad.
  rewrite !elem_of_cons, elem_of_nil in Hop.
  destruct Hop as [->|[->|[->|[->|[]]]]]; cbn -[run getCommunityById joinCommunity
    leaveCommunity getCommunityMembers].
  - destruct (integer_param_error _ Hbad) as (e & E & _).
    apply healthy_reaches in Hw. unfold getCommunityById. cbn -[exec].
    rewrite exec_reaches by done. by rewrite (db_exec_find_error _ _ e).
  - destruct (integer_param_error _ Hbad) as (e & E & _).
    apply healthy_reaches in Hw. unfold joinCommunity. cbn -[exec].
    rewrite exec_reaches by done. by rewrite (db_exec_find_error _ _ e).
  - destruct (leave_run_bad_id req w Hw Hbad) as (-> & -> & -> & ->). done.
  - destruct (integer_param_error _ Hbad) as (e & E & _).
    apply healthy_reaches in Hw. unfold getCommunityMembers. cbn -[exec].
    rewrite exec_reaches by done. by rewrite (db_exec_find_error _ _ e).
Qed.


(** ** The further properties at work on sample data *)

Lemma sample_reaches d : ~ next_fails (Sample.world d).
Proof. unfold next_fails. cbn. discriminate. Defined.

Lemma sample_exact_segment s :
  Sample.exact_segment "communities" s = true ->
  Sample.exact_segment "members" s = true -> False.
Proof.
  unfold Sample.exact_segment. intros H1%String.eqb_eq H2%String.eqb_eq. congruence.
Defined.

Lemma internal_error_is_logged_witness :
  exists q e entry txt,
    (q, Some e) ∈ events_of (handler OpJoinCommunity (Sample.ann_req 1))
                    (Sample.world_flaky Sample.db) /\
    last (w_log (run (handler OpJoinCommunity (Sample.ann_req 1))
                   (Sample.world_flaky Sample.db)).2) = Some entry /\
    level entry = Error /\ parts entry = [LText txt; LErr e].
Proof.
  apply (internal_error_is_logged OpJoinCommunity (Sample.ann_req 1)
           (Sample.world_flaky Sample.db) internal_error); reflexivity.
Defined.

Lemma createUserCommunityModel_idempotent_witness :
  let r := run createUserCommunityModel (Sample.world Sample.db_joined) in
  r.1 = inr tt /\
  is_Some (user_communities (w_db r.2)) /\
  memberships (w_db r.2) = memberships Sample.db_joined /\
  communities (w_db r.2) = communities Sample.db_joined /\
  users (w_db r.2) = users Sample.db_joined /\
  (is_Some (user_communities Sample.db_joined) -> w_db r.2 = Sample.db_joined) /\
  w_db (run createUserCommunityModel r.2).2 = w_db r.2.
Proof.
  apply (createUserCommunityModel_idempotent (Sample.world Sample.db_joined)).
  apply sample_reaches.
Defined.

Lemma createUserCommunityModel_rethrows_witness :
  let r := run createUserCommunityModel (Sample.world_down Sample.db) in
  r.1 = inl ConnectionLost /\
  w_db r.2 = Sample.db /\
  w_log r.2 =
    [{| level := Error;
        parts := [LText "Error creating UserCommunity table:"; LErr ConnectionLost] |}].
Proof.
  apply (createUserCommunityModel_rethrows (Sample.world_down Sample.db)).
  reflexivity.
Defined.



Lemma getUserCommunities_spec_witness :
  exists cs,
    (run (getUserCommunities (Sample.ann_req 0)) (Sample.world Sample.db_joined)).1 =
      inr (res_status_json 200 (JArr (map community_json cs))) /\
    (forall c, c ∈ cs <->
       c ∈ [Sample.rustaceans] /\
       Exists (is_pair 7 (c_id c)) [Sample.at20; Sample.at30; Sample.at10]) /\
    NoDup cs /\
    length cs = 1%nat /\
    same_tables Sample.db_joined
      (w_db (run (getUserCommunities (Sample.ann_req 0)) (Sample.world Sample.db_joined)).2).
Proof.
  apply (getUserCommunities_spec (Sample.ann_req 0) (Sample.world Sample.db_joined)).
  - apply sample_world_healthy.
  - apply sample_db_joined_ok.
Defined.




Lemma leave_twice_witness :
  let first := run (leaveCommunity (Sample.ann_req 1)) (Sample.world Sample.db_joined) in
  let second := run (leaveCommunity (Sample.ann_req 1)) first.2 in
  first.1 = inr (res_status_json 200 (message_body "Successfully left community")) /\
  ~ Exists (fun m => m_user_id m = 7 /\ m_community_id m = 1)
      (memberships (w_db first.2)) /\
  second.1 = inr (res_status_json 200 (message_body "Successfully left community")) /\
  memberships (w_db second.2) = memberships (w_db first.2).
Proof.
  apply (leave_twice (Sample.ann_req 1) (Sample.world Sample.db_joined) 1).
  - apply sample_world_healthy.
  - reflexivity.
  - lia.
Defined.

Lemma joinCommunity_unknown_user_witness :
  let r := run (joinCommunity (Sample.stranger_req 1)) (Sample.world Sample.db_joined) in
  r.1 = inr (res_status_json 500 (error_body "Internal server error")) /\
  memberships (w_db r.2) = [Sample.at20; Sample.at30; Sample.at10].
Proof.
  apply (joinCommunity_unknown_user (Sample.stranger_req 1)
           (Sample.world Sample.db_joined) 1 Sample.rustaceans).
  - apply sample_world_healthy.
  - apply sample_db_joined_ok.
  - reflexivity.
  - reflexivity.
  - apply (bool_decide_unpack _). vm_compute. exact I.
Defined.



Lemma getCommunityMembers_unknown_community_witness :
  let w := Sample.world Sample.db in
  let r := run (getCommunityMembers (Sample.ann_req 5)) w in
  r.1 = inr (res_status_json 404 (error_body "Community not found")) /\
  w_db r.2 = Sample.db /\
  w_trace r.2 = [] ++ [(CommunityFindByPk (IdNumber 5), None)] /\
  last (w_log r.2) =
    Some {| level := Warn;
            parts := [LText "Community with ID "; LNum 5; LText " not found"] |}.
Proof.
  apply (getCommunityMembers_unknown_community (Sample.ann_req 5)
           (Sample.world Sample.db) 5).
  - reflexivity.
  - lia.
  - reflexivity.
  - apply sample_reaches.
Defined.

Lemma lists_before_first_join_witness :
  let w := Sample.world Sample.db in
  (run (getUserCommunities (Sample.ann_req 1)) w).1 = inr (res_status_json 200 (JArr [])) /\
  is_Some (user_communities (w_db (run (getUserCommunities (Sample.ann_req 1)) w).2)) /\
  (run (getCommunityMembers (Sample.ann_req 1)) w).1 =
    inr (res_status_json 200 (JArr [])).
Proof.
  intros w.
  destruct (lists_before_first_join (Sample.ann_req 1) w) as (Hlist & Htable & Hmembers).
  - apply sample_world_healthy.
  - reflexivity.
  - split_and!; [exact Hlist|exact Htable|].
    apply (Hmembers 1 Sample.rustaceans); [reflexivity|lia|reflexivity].
Defined.

Lemma dispatch_order_independent_witness :
  dispatch Sample.exact_segment (reverse router) GET ["user"; "communities"]
  = dispatch Sample.exact_segment router GET ["user"; "communities"].
Proof.
  apply (dispatch_order_independent Sample.exact_segment (reverse router)).
  - apply sample_exact_segment.
  - apply reverse_Permutation.
Defined.

Lemma unguarded_routes_ignore_user_witness :
  handler OpGetCommunityById
    (mkRequest (mkReqUser 99 "admin") (req_params_id (Sample.ann_req 5))
       (req_body (Sample.ann_req 5)))
  = handler OpGetCommunityById (Sample.ann_req 5).
Proof.
  apply (unguarded_routes_ignore_user Sample.exact_segment GET ["5"]
           (mkRoute GET [Param "id"] [] OpGetCommunityById)).
  - reflexivity.
  - cbn. by intros ?%elem_of_nil.
Defined.

Lemma id_not_integer_answered_500_witness :
  let w := Sample.world Sample.db_joined in
  let r := run (handler OpLeaveCommunity (Sample.ann_req 2147483648)) w in
  let r' := run (handler OpGetCommunityById (Sample.word_req "user")) w in
  (r.1 = inr (res_status_json 500 (error_body "Internal server error")) /\
   communities (w_db r.2) = communities (w_db w) /\
   users (w_db r.2) = users (w_db w) /\
   memberships (w_db r.2) = memberships (w_db w)) /\
  (r'.1 = inr (res_status_json 500 (error_body "Internal server error")) /\
   communities (w_db r'.2) = communities (w_db w) /\
   users (w_db r'.2) = users (w_db w) /\
   memberships (w_db r'.2) = memberships (w_db w)).
Proof.
  intros w. split.
  - apply (id_not_integer_answered_500 OpLeaveCommunity (Sample.ann_req 2147483648) w).
    + apply sample_world_healthy.
    + rewrite !elem_of_cons. auto.
    + cbn. lia.
  - apply (id_not_integer_answered_500 OpGetCommunityById (Sample.word_req "user") w).
    + apply sample_world_healthy.
    + rewrite !elem_of_cons. auto.
    + exact I.
Defined.


(** The routes at work: the list of a user's communities is not mistaken for
    the member list of a community called "user", an unknown method is served
    by no route, and a one-segment path is always read as a community id. *)
Example routes_at_work :
  route_handler <$> dispatch Sample.exact_segment router GET ["user"; "communities"]
    = Some OpGetUserCommunities /\
  route_handler <$> dispatch Sample.exact_segment router GET ["7"; "members"]
    = Some OpGetCommunityMembers /\
  dispatch Sample.exact_segment router PUT ["7"] = None /\
  route_handler <$> dispatch Sample.exact_segment router GET ["user"]
    = Some OpGetCommunityById.
Proof. done. Qed.
